(** * XPost: identifier extraction, quote resolution and the access gate

    A shallow embedding of [xpost.py], a Streamlit page that posts on X
    behind a shared password.  Python strings are sequences of Unicode
    code points; [st.session_state] and [st.secrets] are dictionaries;
    a script run is a computation over the session state that may raise.
    The pieces of the Python runtime the script calls ([re.match],
    [str.isdigit], [str.startswith], [hmac.compare_digest]) are modelled
    after their documented behaviour. *)

From Stdlib Require Import NArith Ascii String List Bool Lia.
From stdpp Require Import base option list strings gmap.

Local Open Scope N_scope.
Local Open Scope list_scope.

(** ** Python strings *)

(** A code point, and a [str] as the list of its code points. *)
Definition codepoint := N.
Definition pystr := list codepoint.

(** A literal of the source: every literal this development writes with
    [py] is ASCII, so bytes and code points coincide. *)
Definition py (s : string) : pystr :=
  List.map N_of_ascii (list_ascii_of_string s).
Arguments py : simpl never.

(** [s.startswith(prefix)] *)
Fixpoint startswith (s prefix : pystr) : bool :=
  match prefix, s with
  | [], _ => true
  | _ :: _, [] => false
  | p :: prefix', c :: s' => (c =? p) && startswith s' prefix'
  end.

(** The longest prefix of [s] whose characters satisfy [p], and what is
    left after it. *)
Fixpoint leading (p : codepoint -> bool) (s : pystr) : pystr :=
  match s with
  | c :: s' => if p c then c :: leading p s' else []
  | [] => []
  end.

Fixpoint after_leading (p : codepoint -> bool) (s : pystr) : pystr :=
  match s with
  | c :: s' => if p c then after_leading p s' else s
  | [] => []
  end.

(** ** Unicode character classes (Unicode 14.0, the database of CPython 3.11,
    the first release that ships [tomllib]) *)
Module Unicode.

Definition in_ranges (rs : list (N * N)) (c : codepoint) : bool :=
  existsb (fun r => (fst r <=? c) && (c <=? snd r)) rs.

(** Numeric_Type=Decimal, the general category Nd: what [\d] matches in a
    [str] pattern and what [str.isdecimal] accepts. *)
Definition decimal_ranges : list (N * N) :=
  [(48, 57); (1632, 1641); (1776, 1785); (1984, 1993); (2406, 2415);
   (2534, 2543); (2662, 2671); (2790, 2799); (2918, 2927); (3046, 3055);
   (3174, 3183); (3302, 3311); (3430, 3439); (3558, 3567); (3664, 3673);
   (3792, 3801); (3872, 3881); (4160, 4169); (4240, 4249); (6112, 6121);
   (6160, 6169); (6470, 6479); (6608, 6617); (6784, 6793); (6800, 6809);
   (6992, 7001); (7088, 7097); (7232, 7241); (7248, 7257); (42528, 42537);
   (43216, 43225); (43264, 43273); (43472, 43481); (43504, 43513);
   (43600, 43609); (44016, 44025); (65296, 65305); (66720, 66729);
   (68912, 68921); (69734, 69743); (69872, 69881); (69942, 69951);
   (70096, 70105); (70384, 70393); (70736, 70745); (70864, 70873);
   (71248, 71257); (71360, 71369); (71472, 71481); (71904, 71913);
   (72016, 72025); (72784, 72793); (73040, 73049); (73120, 73129);
   (92768, 92777); (92864, 92873); (93008, 93017); (120782, 120831);
   (123200, 123209); (123632, 123641); (125264, 125273); (130032, 130041)].

(** Numeric_Type=Digit: superscripts, subscripts, circled digits and the
    like, which [str.isdigit] accepts on top of the decimals. *)
Definition digit_ranges : list (N * N) :=
  [(178, 179); (185, 185); (4969, 4977); (6618, 6618); (8304, 8304);
   (8308, 8313); (8320, 8329); (9312, 9320); (9332, 9340); (9352, 9360);
   (9450, 9450); (9461, 9469); (9471, 9471); (10102, 10110);
   (10112, 10120); (10122, 10130); (68160, 68163); (69216, 69224);
   (69714, 69722); (127232, 127242)].

Definition is_decimal (c : codepoint) : bool := in_ranges decimal_ranges c.

Definition is_digit (c : codepoint) : bool :=
  is_decimal c || in_ranges digit_ranges c.

Definition is_ascii (c : codepoint) : bool := c <? 128.

End Unicode.

(** [s.isdigit()]: every character is a digit and there is at least one. *)
Definition isdigit (s : pystr) : bool :=
  match s with
  | [] => false
  | _ :: _ => forallb Unicode.is_digit s
  end.

(** ** The fragment of [re] the script uses *)
Module re.

(** Abstract syntax of the constructs that occur in the pattern. [Plus]
    is the greedy [+] applied to a one-character class, the only operand
    it has in the pattern; [Opt] is the greedy [?]; [Group] is the one
    capturing group. *)
Inductive regex : Type :=
| Eps
| Chr (c : codepoint)
| Cat (r1 r2 : regex)
| Alt (r1 r2 : regex)
| Opt (r : regex)
| Plus (cls : codepoint -> bool)
| Group (r : regex).

Fixpoint lit (s : pystr) : regex :=
  match s with
  | [] => Eps
  | c :: s' => Cat (Chr c) (lit s')
  end.

(** The state of a match in progress: the part of the subject not yet
    consumed and the text of group 1, once it has closed. *)
Record mstate : Type := MState { rest : pystr; group1 : option pystr }.

Definition advance (st : mstate) (s : pystr) : mstate :=
  {| rest := s; group1 := group1 st |}.

(** What was consumed between [st] and the later state [st']. *)
Definition consumed (st st' : mstate) : pystr :=
  take (length (rest st) - length (rest st')) (rest st).

(** [cls+] against [s], longest first: one more character is tried
    before the continuation. *)
Fixpoint plus_bt {A} (cls : codepoint -> bool) (s : pystr)
    (k : pystr -> option A) : option A :=
  match s with
  | [] => None
  | c :: s' =>
      if cls c then
        match plus_bt cls s' k with
        | Some a => Some a
        | None => k s'
        end
      else None
  end.

(** The backtracking matcher, in continuation-passing style: the first
    alternative that lets the continuation succeed wins. *)
Fixpoint bt {A} (r : regex) (st : mstate) (k : mstate -> option A)
    : option A :=
  match r with
  | Eps => k st
  | Chr c =>
      match rest st with
      | x :: s' => if x =? c then k (advance st s') else None
      | [] => None
      end
  | Cat r1 r2 => bt r1 st (fun st1 => bt r2 st1 k)
  | Alt r1 r2 =>
      match bt r1 st k with
      | Some a => Some a
      | None => bt r2 st k
      end
  | Opt r1 =>
      match bt r1 st k with
      | Some a => Some a
      | None => k st
      end
  | Plus cls => plus_bt cls (rest st) (fun s' => k (advance st s'))
  | Group r1 =>
      bt r1 st (fun st1 =>
        k {| rest := rest st1; group1 := Some (consumed st st1) |})
  end.

(** [re.match(pattern, string)]: anchored at the start of the subject, not
    at its end.  The match object is represented by its final state. *)
Definition match_ (r : regex) (s : pystr) : option mstate :=
  bt r {| rest := s; group1 := None |} Some.

End re.

Import re.

(** ** Exceptions *)
Inductive exn : Type :=
| ValueError (msg : pystr)
| KeyError (key : string)
| TypeError (msg : pystr)
| AttributeError (msg : pystr)
| TweepyException (msg : pystr)
| StopException
| RerunException.

Inductive result (A : Type) : Type :=
| Ok (a : A)
| Raise (e : exn).
Arguments Ok {A} a.
Arguments Raise {A} e.

(** ** extract_tweet_id_from_url *)

Definition not_slash (c : codepoint) : bool := negb (c =? 47).

(** [r"https?://(?:www\.)?(?:x\.com|twitter\.com)/[^/]+/status/(\d+)"],
    written in two halves: up to the slash before the user segment, and
    from the user segment on. *)
Definition before_user : regex :=
  Cat (lit (py "http"))
 (Cat (Opt (Chr 115))
 (Cat (lit (py "://"))
 (Cat (Opt (lit (py "www.")))
 (Cat (Alt (lit (py "x.com")) (lit (py "twitter.com")))
      (Chr 47))))).

Definition from_user : regex :=
  Cat (Plus not_slash)
 (Cat (lit (py "/status/"))
      (Group (Plus Unicode.is_decimal))).

Definition pattern : regex := Cat before_user from_user.

Definition invalid_url_message : pystr :=
  py "Invalid URL or does not contain a valid post ID: ".

Definition extract_tweet_id_from_url (url : pystr) : result pystr :=
  match match_ pattern url with
  | Some m =>
      match group1 m with
      | Some tweet_id =>
          if isdigit tweet_id then Ok tweet_id
          else Raise (ValueError (invalid_url_message ++ url))
      | None =>
          (* [None.isdigit()], were the group not to take part in a match *)
          Raise (AttributeError
                   (py "'NoneType' object has no attribute 'isdigit'"))
      end
  | None => Raise (ValueError (invalid_url_message ++ url))
  end.


(** ** Values, dictionaries and the world of a script run *)

Inductive pyval : Type :=
| VBool (b : bool)
| VInt (n : Z)
| VStr (s : pystr).

(** Truth value of an object, as [if] and [not] take it. *)
Definition truthy (v : pyval) : bool :=
  match v with
  | VBool b => b
  | VInt n => negb (n =? 0)%Z
  | VStr s => match s with [] => false | _ :: _ => true end
  end.

Record credentials : Type := Credentials {
  consumer_key : pyval;
  consumer_secret : pyval;
  access_token : pyval;
  access_token_secret : pyval
}.

(** [response.data['id']] is all the script reads of a response. *)
Record response : Type := Response { data_id : pystr }.

(** What a run shows or does. *)
Inductive event : Type :=
| SetPageConfig (page_title : pyval)
| MarkdownCss (font_size : pyval)
| Title (body : pystr)
| Markdown (body : pystr)
| Form (key : string)
| TextInput (label : pystr)
| TextArea (max_chars height : pyval)
| Button (label : pystr)
| ErrorMessage (body : pystr)
| SuccessMessage (body : pystr)
| ClientCreated (creds : credentials)
| CreateTweet (text : pystr) (quote_tweet_id : option pystr).

(** The actions that reach for the posting API: building the client and
    calling it. *)
Definition api_event (e : event) : bool :=
  match e with
  | ClientCreated _ | CreateTweet _ _ => true
  | _ => false
  end.

(** A log entry: an event and the session state it happened in. *)
Record entry : Type := Entry {
  what : event;
  session_then : gmap string pyval
}.

Record world : Type := World {
  session_state : gmap string pyval;
  log : list entry
}.

(** What surrounds a run: the secret store (its scalar entries and its
    optional [config] table), the [config] table of config.toml as
    [tomllib] delivers it, and the posting API behind the client.  The
    secret store is taken to exist: a deployment with no secrets file at
    all, where every access to [st.secrets] raises an error of Streamlit
    that is not a [KeyError], is outside the model. *)
Record env : Type := Env {
  secrets : gmap string pyval;
  secrets_config : option (gmap string pyval);
  config_toml : result (gmap string pyval);
  api : credentials -> pystr -> option pystr -> result response
}.

(** What the user did in the page for this run. *)
Record ui : Type := Ui {
  password_typed : pystr;
  submit_clicked : bool;
  text_typed : pystr;
  quote_url_typed : pystr;
  post_clicked : bool;
  logout_clicked : bool
}.

(** ** The monad of script runs: state, log and exceptions *)

Definition M (A : Type) : Type := world -> result A * world.

Definition ret {A} (a : A) : M A := fun w => (Ok a, w).

Definition bind {A B} (m : M A) (f : A -> M B) : M B :=
  fun w =>
    match m w with
    | (Ok a, w') => f a w'
    | (Raise e, w') => (Raise e, w')
    end.

Definition raise {A} (e : exn) : M A := fun w => (Raise e, w).

Definition lift {A} (r : result A) : M A := fun w => (r, w).

Notation "x <- m ;; k" := (bind m (fun x => k))
  (at level 100, m at next level, right associativity).
Notation "m ;;; k" := (bind m (fun _ => k))
  (at level 100, right associativity).

(** [try: body except ...: handler] *)
Definition try_ {A} (body : M A) (handler : exn -> M A) : M A :=
  fun w =>
    match body w with
    | (Ok a, w') => (Ok a, w')
    | (Raise e, w') => handler e w'
    end.

(** The worlds the primitives produce: an event appended to the log with
    the session state of the moment, a key set, a key deleted. *)
Definition emit_w (e : event) (w : world) : world :=
  {| session_state := session_state w;
     log := log w ++ [Entry e (session_state w)] |}.

Definition set_w (key : string) (v : pyval) (w : world) : world :=
  {| session_state := <[key := v]> (session_state w); log := log w |}.

Definition del_w (key : string) (w : world) : world :=
  {| session_state := delete key (session_state w); log := log w |}.

Definition emit (e : event) : M unit := fun w => (Ok tt, emit_w e w).

(** [d[key]] on a dictionary of the environment *)
Definition getitem (d : gmap string pyval) (key : string) : result pyval :=
  match d !! key with
  | Some v => Ok v
  | None => Raise (KeyError key)
  end.

(** [st.session_state[key]], [st.session_state.get(key, default)],
    [key in st.session_state], [st.session_state[key] = v],
    [del st.session_state[key]] *)
Definition session_getitem (key : string) : M pyval :=
  fun w => (getitem (session_state w) key, w).

Definition session_get (key : string) (dflt : pyval) : M pyval :=
  fun w => (Ok (default dflt (session_state w !! key)), w).

Definition session_contains (key : string) : M bool :=
  fun w => (Ok (bool_decide (is_Some (session_state w !! key))), w).

Definition session_setitem (key : string) (v : pyval) : M unit :=
  fun w => (Ok tt, set_w key v w).

Definition session_delitem (key : string) : M unit :=
  fun w =>
    match session_state w !! key with
    | Some _ => (Ok tt, del_w key w)
    | None => (Raise (KeyError key), w)
    end.

(** ** The fragment of [hmac] the script uses *)
Module hmac.

Definition type_name (v : pyval) : pystr :=
  match v with
  | VBool _ => py "bool"
  | VInt _ => py "int"
  | VStr _ => py "str"
  end.

(** [hmac.compare_digest(a, b)]: two [str] arguments are compared for
    equality when both are ASCII; a non-ASCII [str], or an argument that is
    not a [str], is a [TypeError]. *)
Definition compare_digest (a b : pyval) : result bool :=
  match a, b with
  | VStr x, VStr y =>
      if forallb Unicode.is_ascii x && forallb Unicode.is_ascii y
      then Ok (bool_decide (x = y))
      else Raise (TypeError
             (py "comparing strings with non-ASCII characters is not supported"))
  | _, _ =>
      Raise (TypeError
        (py "unsupported operand types(s) or combination of types: '"
         ++ type_name a ++ py "' and '" ++ type_name b ++ py "'"))
  end.

End hmac.

(** ** The script *)

Section Script.

Variable E : env.

(** [st.secrets[key]] *)
Definition secrets_getitem (key : string) : M pyval :=
  lift (getitem (secrets E) key).

Definition load_credentials : M credentials :=
  ck <- secrets_getitem "CONSUMER_KEY" ;;
  cs <- secrets_getitem "CONSUMER_SECRET" ;;
  at_ <- secrets_getitem "ACCESS_TOKEN" ;;
  ats <- secrets_getitem "ACCESS_TOKEN_SECRET" ;;
  ret (Credentials ck cs at_ ats).

(** The table of config.toml, updated with the [config] table of the
    secrets when there is one. *)
Definition load_config : M (gmap string pyval) :=
  config <- lift (config_toml E) ;;
  match secrets_config E with
  | Some override => ret (override ∪ config)
  | None => ret config
  end.

(** [tweepy.Client(...)] and [client.create_tweet(...)] *)
Definition new_client (creds : credentials) : M credentials :=
  emit (ClientCreated creds) ;;; ret creds.

Definition create_tweet (client : credentials) (text : pystr)
    (quote_tweet_id : option pystr) : M response :=
  emit (CreateTweet text quote_tweet_id) ;;;
  lift (api E client text quote_tweet_id).

(** The [except tweepy.TweepyException: raise] clauses re-raise what they
    catch, so the [try] statements around the calls are transparent. *)
Definition post_message (client : credentials) (message : pystr)
    : M response :=
  create_tweet client message None.

Definition validation_message : pystr :=
  py "quote_tweet_id must be a string representing a valid numeric ID.".

Definition post_quote (client : credentials) (message : pystr)
    (quote_tweet_id_or_url : pystr) : M response :=
  quote_tweet_id <-
    (if startswith quote_tweet_id_or_url (py "http")
     then lift (extract_tweet_id_from_url quote_tweet_id_or_url)
     else ret quote_tweet_id_or_url) ;;
  if negb (isdigit quote_tweet_id)
  then raise (ValueError validation_message)
  else create_tweet client message (Some quote_tweet_id).

Section Run.

Variable U : ui.

(** The inner function of [check_password]. *)
Definition password_entered : M unit :=
  entered <- session_getitem "password_input" ;;
  secret <- secrets_getitem "APP_PASSWORD" ;;
  same <- lift (hmac.compare_digest entered secret) ;;
  if same then
    session_setitem "password_correct" (VBool true) ;;;
    session_delitem "password_input"
  else
    session_setitem "password_correct" (VBool false) ;;;
    session_delitem "password_input".

Definition incorrect_password : pystr :=
  128533 :: py " Incorrect password".

(** A widget created with [key=...] keeps its value in the session state
    under that key.  The session state holds the keys the script names;
    the entries Streamlit keeps there for its own widgets, such as the one
    of the submit button of the form, are outside the model. *)
Definition check_password : M bool :=
  flag <- session_get "password_correct" (VBool false) ;;
  if truthy flag then ret true
  else
    emit (Title (128274 :: py " Reserved access")) ;;;
    emit (Markdown (py "Sign-in:")) ;;;
    emit (Form "password_form") ;;;
    emit (TextInput (py "Password")) ;;;
    session_setitem "password_input" (VStr (password_typed U)) ;;;
    emit (Button (py "Submit")) ;;;
    (if submit_clicked U then password_entered else ret tt) ;;;
    flag' <- session_get "password_correct" (VBool false) ;;
    if negb (truthy flag') then
      emit (ErrorMessage incorrect_password) ;;;
      raise StopException
    else ret true.

(** [str(e)] inside the f-strings of the error messages. *)
Definition exn_str (e : exn) : pystr :=
  match e with
  | ValueError m | TypeError m | AttributeError m | TweepyException m => m
  | KeyError k => py "'" ++ py k ++ py "'"
  | StopException | RerunException => []
  end.

(** The body of [if st.button("Post on X"):] *)
Definition on_post (client : credentials) : M unit :=
  match text_typed U with
  | [] => emit (ErrorMessage (py "The text cannot be empty!"))
  | _ :: _ =>
      try_
        (resp <-
           (match quote_url_typed U with
            | _ :: _ => post_quote client (text_typed U) (quote_url_typed U)
            | [] => post_message client (text_typed U)
            end) ;;
         emit (SuccessMessage
                 (py "Posted successfully! ID: " ++ data_id resp)))
        (fun e =>
           match e with
           | ValueError ve =>
               emit (ErrorMessage (py "Validation error: " ++ ve))
           | StopException | RerunException => raise e
           | _ =>
               emit (ErrorMessage
                       (py "Error during posting: " ++ exn_str e))
           end)
  end.

(** The body of [if st.button("Logout"):] *)
Definition on_logout : M unit :=
  present <- session_contains "password_correct" ;;
  (if present then session_delitem "password_correct" else ret tt) ;;;
  raise RerunException.

(** What [main] runs once [check_password] has returned [True]. *)
Definition main_content (config : gmap string pyval) : M unit :=
  creds <- load_credentials ;;
  client <- new_client creds ;;
  emit (Title (py "Post on X")) ;;;
  emit (Markdown (py "Enter the text and optionally a URL to quote.")) ;;;
  (* read for the label and again for [max_chars=] *)
  max_chars <- lift (getitem config "textarea_max_chars") ;;
  height <- lift (getitem config "textarea_height") ;;
  emit (TextArea max_chars height) ;;;
  emit (TextInput (py "URL of the post to quote (optional)")) ;;;
  emit (Button (py "Post on X")) ;;;
  (if post_clicked U then on_post client else ret tt) ;;;
  emit (Button (py "Logout")) ;;;
  (if logout_clicked U then on_logout else ret tt).

Definition main : M unit :=
  config <- load_config ;;
  page_title <- lift (getitem config "page_title") ;;
  emit (SetPageConfig page_title) ;;;
  font_size <- lift (getitem config "textarea_font_size") ;;
  emit (MarkdownCss font_size) ;;;
  ok <- check_password ;;
  if ok then main_content config else ret tt.

End Run.

End Script.

(** One interaction: the script runs from top to bottom on the session
    state the previous run left. *)
Definition run (E : env) (U : ui) (s : gmap string pyval) : result unit * world :=
  main E U {| session_state := s; log := [] |}.

(** The session states the page can be in: the empty one of a new session,
    and what a run leaves behind, however it ends. *)
Inductive reachable : gmap string pyval -> Prop :=
| reachable_new : reachable ∅
| reachable_run (E : env) (U : ui) (s : gmap string pyval) :
    reachable s -> reachable (session_state (snd (run E U s))).

(** The authenticated flag, as [check_password] reads it. *)
Definition authenticated (s : gmap string pyval) : bool :=
  truthy (default (VBool false) (s !! "password_correct")).

(** ** The words of the specification *)

(** The error kinds of the specification; the script raises both as
    [ValueError], told apart by their messages. *)
Definition InvalidURL (url : pystr) : exn :=
  ValueError (invalid_url_message ++ url).

Definition ValidationError : exn := ValueError validation_message.

(** A post URL: scheme [http] or [https], optional [www.], one of the two
    hosts, then [/<user>/status/<digits>]. *)
Inductive platform : Type := x_com | twitter_com.

Record post_url : Type := PostUrl {
  secure : bool;
  www : bool;
  host : platform;
  user : pystr;
  digits : pystr
}.

Definition host_name (h : platform) : pystr :=
  match h with
  | x_com => py "x.com"
  | twitter_com => py "twitter.com"
  end.

Definition render (u : post_url) : pystr :=
  py "http" ++ (if secure u then py "s" else []) ++ py "://"
  ++ (if www u then py "www." else []) ++ host_name (host u)
  ++ py "/" ++ user u ++ py "/status/" ++ digits u.

Definition nonempty (s : pystr) : bool :=
  match s with [] => false | _ :: _ => true end.

(** The user segment is not empty and has no slash; the identifier is not
    empty and made of decimal digits. *)
Definition well_formed (u : post_url) : bool :=
  nonempty (user u) && forallb not_slash (user u)
  && nonempty (digits u) && forallb Unicode.is_decimal (digits u).

Definition post_url_shape (s : pystr) : Prop :=
  exists u, well_formed u = true /\ s = render u.

Definition begins_with_post_url (s : pystr) : Prop :=
  exists u trailing, well_formed u = true /\ s = render u ++ trailing.

(** The words a regular expression denotes, whatever the order in which a
    matcher tries them. *)
Fixpoint lang (r : regex) (w : pystr) : Prop :=
  match r with
  | Eps => w = []
  | Chr c => w = [c]
  | Cat r1 r2 => exists w1 w2, w = w1 ++ w2 /\ lang r1 w1 /\ lang r2 w2
  | Alt r1 r2 => lang r1 w \/ lang r2 w
  | Opt r1 => w = [] \/ lang r1 w
  | Plus cls => w <> [] /\ forallb cls w = true
  | Group r1 => lang r1 w
  end.

(** ** Invariants of the session *)

Definition FLAG : string := "password_correct".

(** The flag is absent or a boolean. *)
Definition flag_ok (s : gmap string pyval) : Prop :=
  s !! FLAG = None \/ exists b, s !! FLAG = Some (VBool b).

(** An action on the posting API was taken with the flag set. *)
Definition entry_ok (en : entry) : Prop :=
  api_event (what en) = true -> session_then en !! FLAG = Some (VBool true).

Definition gated (w : world) : Prop :=
  flag_ok (session_state w) /\ Forall entry_ok (log w).

Definition unlocked (w : world) : Prop :=
  gated w /\ session_state w !! FLAG = Some (VBool true).

(** No action on the posting API is in the log. *)
Definition api_free (w : world) : Prop :=
  Forall (fun en => api_event (what en) = false) (log w).

(** ** Hoare triples for the monad *)

(** From a world in [P], [m] returns a value and a world in [Q], or raises
    and leaves a world in [R]. *)
Definition triple {A} (P : world -> Prop) (m : M A)
    (Q : A -> world -> Prop) (R : world -> Prop) : Prop :=
  forall w, P w ->
    match m w with
    | (Ok a, w') => Q a w'
    | (Raise _, w') => R w'
    end.

(** An effect that keeps [I] when it returns and leaves [J] when it
    raises. *)
Definition keeps {A} (I J : world -> Prop) (m : M A) : Prop :=
  triple I m (fun _ => I) J.

(** The world once the login form has been shown and the widget has
    stored the typed password. *)
Definition login_form (U : ui) (w : world) : world :=
  emit_w (Button (py "Submit"))
    (set_w "password_input" (VStr (password_typed U))
       (emit_w (TextInput (py "Password"))
          (emit_w (Form "password_form")
             (emit_w (Markdown (py "Sign-in:"))
                (emit_w (Title (128274 :: py " Reserved access")) w))))).

(** What the access gate needs of an invariant to keep it: it shows
    widgets and messages, stores the typed password, sets the flag to a
    boolean and deletes keys. *)
Record gate_invariant (I : world -> Prop) : Prop := GateInvariant {
  gi_emit : forall e w, api_event e = false -> I w -> I (emit_w e w);
  gi_input : forall v w, I w -> I (set_w "password_input" v w);
  gi_flag : forall b w, I w -> I (set_w FLAG (VBool b) w);
  gi_del : forall key w, I w -> I (del_w key w)
}.

(** The four fields [load_credentials] reads, in the order it reads them. *)
Definition credential_keys : list string :=
  ["CONSUMER_KEY"; "CONSUMER_SECRET"; "ACCESS_TOKEN"; "ACCESS_TOKEN_SECRET"].

(** ** Sample environment *)

Definition demo_secrets : gmap string pyval :=
  <["APP_PASSWORD" := VStr (py "secret")]>
  (<["CONSUMER_KEY" := VStr (py "ck")]>
  (<["CONSUMER_SECRET" := VStr (py "cs")]>
  (<["ACCESS_TOKEN" := VStr (py "at")]>
  (<["ACCESS_TOKEN_SECRET" := VStr (py "ats")]> ∅)))).

Definition demo_config : gmap string pyval :=
  <["page_title" := VStr (py "xpost")]>
  (<["textarea_max_chars" := VInt 280]>
  (<["textarea_height" := VInt 100]>
  (<["textarea_font_size" := VInt 16]> ∅))).

Definition demo_api (c : credentials) (text : pystr) (q : option pystr)
    : result response :=
  Ok (Response (py "1")).

Definition demo_env : env :=
  {| secrets := demo_secrets; secrets_config := None;
     config_toml := Ok demo_config; api := demo_api |}.

(** The same deployment with no credentials in the secret store. *)
Definition bare_env : env :=
  {| secrets := <["APP_PASSWORD" := VStr (py "secret")]> ∅;
     secrets_config := None;
     config_toml := Ok demo_config; api := demo_api |}.

Definition demo_creds : credentials :=
  Credentials (VStr (py "ck")) (VStr (py "cs")) (VStr (py "at")) (VStr (py "ats")).

Definition submit_password (p : pystr) : ui :=
  {| password_typed := p; submit_clicked := true; text_typed := [];
     quote_url_typed := []; post_clicked := false; logout_clicked := false |}.

Definition submit_post (text quote : pystr) : ui :=
  {| password_typed := []; submit_clicked := false; text_typed := text;
     quote_url_typed := quote; post_clicked := true; logout_clicked := false |}.

Definition world0 : world := {| session_state := ∅; log := [] |}.

Definition alice_url : post_url :=
  {| secure := true; www := false; host := x_com;
     user := py "alice"; digits := py "1234567890123456789" |}.

(** A session that has passed the gate. *)
Definition signed_in : gmap string pyval := <[FLAG := VBool true]> ∅.

Definition quote_alice : ui :=
  submit_post (py "hello world") (render alice_url).

Definition quote_alice_call : entry :=
  Entry (CreateTweet (py "hello world") (Some (py "1234567890123456789")))
        signed_in.

(** The same deployment with a password outside ASCII. *)
Definition accented_env : env :=
  {| secrets := <["APP_PASSWORD" := VStr [112; 228; 115; 115]]> demo_secrets;
     secrets_config := None;
     config_toml := Ok demo_config; api := demo_api |}.


(** ** Further vocabulary *)

(** The configuration [load_config] returns for the table [c] of
    config.toml. *)
Definition merged_config (E : env) (c : gmap string pyval)
    : gmap string pyval :=
  match secrets_config E with
  | Some override => override ∪ c
  | None => c
  end.

(** The first credential field, in the order of [load_credentials], that the
    secret store lacks. *)
Definition first_missing (s : gmap string pyval) : option string :=
  List.find (fun key => bool_decide (s !! key = None)) credential_keys.

(** The actions on the posting API among logged entries. *)
Definition calls (l : list entry) : list event :=
  List.filter api_event (List.map what l).

(** The sample deployment with no password in the secret store. *)
Definition no_password_env : env :=
  {| secrets := delete "APP_PASSWORD" demo_secrets;
     secrets_config := None;
     config_toml := Ok demo_config; api := demo_api |}.

Definition idle : ui :=
  {| password_typed := []; submit_clicked := false; text_typed := [];
     quote_url_typed := []; post_clicked := false; logout_clicked := false |}.

Definition click_logout : ui :=
  {| password_typed := []; submit_clicked := false; text_typed := [];
     quote_url_typed := []; post_clicked := false; logout_clicked := true |}.

(** * Facts *)

(** ** Strings and character classes *)

(** Replace the literals of the goal by their code points. *)
Ltac eval_py :=
  repeat match goal with
  | |- context [py ?s] =>
      let v := eval vm_compute in (py s) in change (py s) with v
  end.

Section Leading.

Variable p : codepoint -> bool.

Lemma leading_after s : leading p s ++ after_leading p s = s.
Proof.
  induction s as [|c s IH]; simpl; [reflexivity|].
  destruct (p c); simpl; [now rewrite IH | reflexivity].
Qed.

Lemma leading_app s t :
  forallb p s = true -> leading p (s ++ t) = s ++ leading p t.
Proof.
  induction s as [|c s IH]; simpl; [reflexivity|].
  intros [Hc Hs]%andb_prop. rewrite Hc, IH by assumption. reflexivity.
Qed.

Lemma after_leading_app s t :
  forallb p s = true -> after_leading p (s ++ t) = after_leading p t.
Proof.
  induction s as [|c s IH]; simpl; [reflexivity|].
  intros [Hc Hs]%andb_prop. rewrite Hc. now apply IH.
Qed.

Lemma leading_forallb s : forallb p (leading p s) = true.
Proof.
  induction s as [|c s IH]; simpl; [reflexivity|].
  destruct (p c) eqn:Hc; simpl; [now rewrite Hc | reflexivity].
Qed.

Lemma take_leading s :
  take (length s - length (after_leading p s)) s = leading p s.
Proof.
  rewrite <- (leading_after s) at 1 3.
  rewrite length_app, Nat.add_sub. apply take_app_length.
Qed.

End Leading.

Lemma decimal_is_digit c :
  Unicode.is_decimal c = true -> Unicode.is_digit c = true.
Proof. unfold Unicode.is_digit. now intros ->. Qed.

Lemma ascii_digit_is_decimal c :
  48 <= c <= 57 -> Unicode.is_decimal c = true.
Proof.
  intros [H1 H2]. unfold Unicode.is_decimal, Unicode.in_ranges, Unicode.decimal_ranges.
  simpl existsb.
  apply N.leb_le in H1, H2. now rewrite H1, H2.
Qed.

(** On ASCII, the digits of [str.isdigit] are [0] to [9]. *)
Lemma ascii_is_digit c :
  Unicode.is_ascii c = true -> (Unicode.is_digit c = true <-> 48 <= c <= 57).
Proof.
  unfold Unicode.is_ascii. intros Hc%N.ltb_lt. split.
  - unfold Unicode.is_digit, Unicode.is_decimal, Unicode.in_ranges.
    intros H. apply orb_prop in H.
    destruct H as [H|H]; apply existsb_exists in H;
      destruct H as (r & Hin & Hr); apply andb_prop in Hr;
      destruct Hr as [Hlo%N.leb_le Hhi%N.leb_le];
      simpl in Hin;
      repeat (destruct Hin as [<-|Hin]; [simpl in *; lia|]);
      destruct Hin.
  - intros H. now apply decimal_is_digit, ascii_digit_is_decimal.
Qed.

Lemma forallb_decimal_isdigit s :
  s <> [] -> forallb Unicode.is_decimal s = true -> isdigit s = true.
Proof.
  intros Hne H. destruct s as [|c s]; [contradiction|].
  unfold isdigit. apply forallb_forall. intros x Hx.
  apply decimal_is_digit. revert x Hx. now apply forallb_forall.
Qed.

(** A string of digits does not start with [http]. *)
Lemma isdigit_not_http s :
  isdigit s = true -> startswith s (py "http") = false.
Proof.
  destruct s as [|c s]; [discriminate|].
  eval_py. simpl. intros [Hc _]%andb_prop.
  destruct (N.eqb_spec c 104) as [->|]; [discriminate Hc | reflexivity].
Qed.

(** ** The matcher *)

Lemma plus_bt_leading {A} cls s (k : pystr -> option A) a :
  leading cls s <> [] ->
  k (after_leading cls s) = Some a ->
  plus_bt cls s k = Some a.
Proof.
  induction s as [|c s IH]; simpl; [congruence|].
  destruct (cls c) eqn:Hc; [|congruence].
  intros _ Hk.
  destruct s as [|c' s'] eqn:Es.
  - simpl in *. assumption.
  - rewrite <- Es in *. destruct (leading cls s) eqn:El.
    + assert (plus_bt cls s k = None /\ after_leading cls s = s) as [-> Ha].
      { subst s. simpl in *. destruct (cls c'); [discriminate|]. split; reflexivity. }
      now rewrite <- Ha.
    + rewrite IH; [reflexivity | congruence | assumption].
Qed.

Lemma bt_lit {A} l t g (k : mstate -> option A) :
  bt (lit l) (MState (l ++ t) g) k = k (MState t g).
Proof.
  revert g. induction l as [|c l IH]; intros g; simpl; [reflexivity|].
  rewrite N.eqb_refl. unfold advance. simpl. apply IH.
Qed.

Lemma bt_cat {A} r1 r2 st (k : mstate -> option A) :
  bt (Cat r1 r2) st k = bt r1 st (fun st1 => bt r2 st1 k).
Proof. reflexivity. Qed.

Lemma bt_plus {A} cls st (k : mstate -> option A) :
  bt (Plus cls) st k = plus_bt cls (rest st) (fun s' => k (advance st s')).
Proof. reflexivity. Qed.

Lemma bt_group {A} r st (k : mstate -> option A) :
  bt (Group r) st k
  = bt r st (fun st1 => k (MState (rest st1) (Some (consumed st st1)))).
Proof. reflexivity. Qed.

(** From the user segment on: the segment is taken whole, and the group
    takes every decimal digit that follows [/status/]. *)
Lemma bt_from_user g usr tail :
  usr <> [] -> forallb not_slash usr = true ->
  leading Unicode.is_decimal tail <> [] ->
  bt from_user (MState (usr ++ py "/status/" ++ tail) g) Some
  = Some (MState (after_leading Unicode.is_decimal tail)
                 (Some (leading Unicode.is_decimal tail))).
Proof.
  intros Hne Hns Hd. unfold from_user.
  rewrite bt_cat, bt_plus. cbn [rest].
  apply plus_bt_leading.
  - rewrite leading_app by assumption. destruct usr; [contradiction | discriminate].
  - rewrite after_leading_app by assumption.
    replace (after_leading not_slash (py "/status/" ++ tail))
      with (py "/status/" ++ tail) by reflexivity.
    unfold advance. cbn [rest group1].
    rewrite bt_cat, bt_lit, bt_group, bt_plus. unfold advance. cbn [rest group1].
    apply plus_bt_leading; [assumption|].
    unfold consumed. cbn [rest group1]. now rewrite take_leading.
Qed.

(** Up to the user segment: each of the eight heads is matched along one
    path, and the rest of the pattern goes on from there. *)
Lemma bt_before_user {A} u t (k : mstate -> option A) a :
  k (MState t None) = Some a ->
  bt before_user
     (MState (py "http" ++ (if secure u then py "s" else []) ++ py "://"
              ++ (if www u then py "www." else []) ++ host_name (host u)
              ++ py "/" ++ t) None) k = Some a.
Proof.
  intros H.
  destruct (secure u), (www u), (host u); vm_compute; rewrite H; reflexivity.
Qed.

Lemma match_render u trailing :
  well_formed u = true ->
  match_ pattern (render u ++ trailing)
  = Some (MState (after_leading Unicode.is_decimal trailing)
                 (Some (digits u ++ leading Unicode.is_decimal trailing))).
Proof.
  unfold well_formed. intros H.
  apply andb_prop in H as [H Hdec]. apply andb_prop in H as [H Hd].
  apply andb_prop in H as [Hu Hns].
  unfold match_, pattern, render. rewrite bt_cat.
  rewrite <- !app_assoc.
  apply bt_before_user.
  rewrite <- (leading_app _ _ _ Hdec), <- (after_leading_app _ _ trailing Hdec).
  apply bt_from_user.
  - destruct (user u); [discriminate | congruence].
  - assumption.
  - rewrite leading_app by assumption. destruct (digits u); [discriminate | discriminate].
Qed.

Lemma extract_render u trailing :
  well_formed u = true ->
  extract_tweet_id_from_url (render u ++ trailing)
  = Ok (digits u ++ leading Unicode.is_decimal trailing).
Proof.
  intros H. unfold extract_tweet_id_from_url.
  rewrite match_render by assumption. cbn [group1].
  rewrite forallb_decimal_isdigit; [reflexivity | |].
  - unfold well_formed in H. destruct (digits u); [|discriminate].
    now rewrite andb_false_r in H.
  - rewrite forallb_app, leading_forallb, andb_true_r.
    unfold well_formed in H. now apply andb_prop in H as [_ H].
Qed.

(** The example of the docstring, and inputs the extractor turns down:
    another host, no [/status/] segment, an empty user segment, no digit
    after [/status/], a digit of [str.isdigit] that [\d] does not match. *)
Example extract_docstring :
  extract_tweet_id_from_url (py "https://x.com/user/status/123456789")
  = Ok (py "123456789").
Proof. vm_compute. reflexivity. Qed.

Example extract_rejected :
  Forall (fun url => extract_tweet_id_from_url url = Raise (InvalidURL url))
    [py "https://mobile.x.com/u/status/1"; py "https://x.com/u/1";
     py "https://x.com//status/1"; py "https://x.com/u/status/abc";
     py "https://x.com/u/status/" ++ [178]; py "ftp://x.com/u/status/1"; []].
Proof. repeat constructor. Qed.

(** [\d] and [str.isdigit] go beyond ASCII: Arabic-Indic digits are taken
    as an identifier, and a superscript two is a digit for [str.isdigit]. *)
Example extract_arabic_indic :
  extract_tweet_id_from_url (py "https://x.com/u/status/12" ++ [1635])
  = Ok (py "12" ++ [1635]).
Proof. vm_compute. reflexivity. Qed.

Example isdigit_superscript : isdigit [178] = true.
Proof. reflexivity. Qed.

(** ** What a successful match says about the subject *)

Lemma plus_bt_sound {A} cls s (k : pystr -> option A) a :
  plus_bt cls s k = Some a ->
  exists w s', s = w ++ s' /\ w <> [] /\ forallb cls w = true /\ k s' = Some a.
Proof.
  induction s as [|c s IH]; simpl; [discriminate|].
  destruct (cls c) eqn:Hc; [|discriminate].
  destruct (plus_bt cls s k) as [a'|] eqn:E.
  - intros [= ->]. destruct (IH eq_refl) as (w & s' & -> & _ & Hw & Hk).
    exists (c :: w), s'. simpl. rewrite Hc, Hw. repeat split; [discriminate | assumption].
  - intros Hk. exists [c], s. simpl. rewrite Hc. repeat split; [discriminate | assumption].
Qed.

Lemma bt_sound {A} r :
  forall st (k : mstate -> option A) a,
    bt r st k = Some a ->
    exists w st', rest st = w ++ rest st' /\ lang r w /\ k st' = Some a.
Proof.
  induction r as [|c|r1 IH1 r2 IH2|r1 IH1 r2 IH2|r1 IH1|cls|r1 IH1];
    intros st k a H; cbn [bt lang] in *.
  - exists [], st. auto.
  - destruct (rest st) as [|x s'] eqn:Es; [discriminate|].
    destruct (N.eqb_spec x c) as [->|]; [|discriminate].
    exists [c], (advance st s'). auto.
  - apply IH1 in H as (w1 & st1 & E1 & L1 & H).
    apply IH2 in H as (w2 & st2 & E2 & L2 & H).
    exists (w1 ++ w2), st2. rewrite E1, E2, app_assoc. eauto 8.
  - destruct (bt r1 st k) as [a'|] eqn:E.
    + injection H as ->. apply IH1 in E as (w & st' & ? & ? & ?). eauto 8.
    + apply IH2 in H as (w & st' & ? & ? & ?). eauto 8.
  - destruct (bt r1 st k) as [a'|] eqn:E.
    + injection H as ->. apply IH1 in E as (w & st' & ? & ? & ?). eauto 8.
    + exists [], st. auto.
  - apply plus_bt_sound in H as (w & s' & E & Hne & Hw & H).
    exists w, (advance st s'). auto.
  - apply IH1 in H as (w & st1 & E & L & H).
    exists w, (MState (rest st1) (Some (consumed st st1))). auto.
Qed.

Lemma lang_lit l w : lang (lit l) w <-> w = l.
Proof.
  revert w. induction l as [|c l IH]; intros w; cbn [lit lang]; [reflexivity|].
  split.
  - intros (w1 & w2 & -> & -> & H%IH). now subst.
  - intros ->. exists [c], l. rewrite IH. auto.
Qed.

Lemma lang_before_user w :
  lang before_user w ->
  exists sec ww h,
    w = py "http" ++ (if sec : bool then py "s" else []) ++ py "://"
        ++ (if ww : bool then py "www." else []) ++ host_name h ++ py "/".
Proof.
  unfold before_user. cbn [lang].
  intros (w1 & ? & -> & H1%lang_lit & w2 & ? & -> & H2 & w3 & ? & ->
          & H3%lang_lit & w4 & ? & -> & H4 & w5 & w6 & -> & H5 & ->).
  subst w1 w3.
  assert (exists sec : bool, w2 = if sec then py "s" else []) as [sec ->].
  { destruct H2 as [->| ->]; [now exists false | now exists true]. }
  assert (exists ww : bool, w4 = if ww then py "www." else []) as [ww ->].
  { destruct H4 as [->|H4]; [now exists false|].
    apply lang_lit in H4 as ->. now exists true. }
  assert (exists h, w5 = host_name h) as [h ->].
  { destruct H5 as [H5|H5]; apply lang_lit in H5 as ->;
      [now exists x_com | now exists twitter_com]. }
  now exists sec, ww, h.
Qed.

Lemma lang_from_user w :
  lang from_user w ->
  exists usr ds,
    w = usr ++ py "/status/" ++ ds
    /\ usr <> [] /\ forallb not_slash usr = true
    /\ ds <> [] /\ forallb Unicode.is_decimal ds = true.
Proof.
  unfold from_user. cbn [lang].
  intros (usr & ? & -> & [Hu Hns] & w2 & ds & -> & H2%lang_lit & Hd & Hdec).
  subst w2. now exists usr, ds.
Qed.

Lemma nonempty_true s : s <> [] -> nonempty s = true.
Proof. now destruct s. Qed.

Lemma match_sound url m :
  match_ pattern url = Some m -> begins_with_post_url url.
Proof.
  unfold match_. intros (w & st' & E & L & _)%bt_sound.
  cbn [rest] in E. unfold pattern in L. cbn [lang] in L.
  destruct L as (w1 & w2 & -> & (sec & ww & h & ->)%lang_before_user
                 & (usr & ds & -> & Hu & Hns & Hd & Hdec)%lang_from_user).
  exists (PostUrl sec ww h usr ds), (rest st'). split.
  - unfold well_formed. cbn [user digits].
    now rewrite !nonempty_true, Hns, Hdec by assumption.
  - rewrite E. unfold render. cbn [secure www host user digits].
    now rewrite <- !app_assoc.
Qed.

Lemma begins_extract_ok url :
  begins_with_post_url url -> exists id, extract_tweet_id_from_url url = Ok id.
Proof.
  intros (u & trailing & Hwf & ->). eexists. now apply extract_render.
Qed.

(** The last character of a post URL is a decimal digit. *)
Lemma last_render u :
  well_formed u = true ->
  exists d, last (render u) = Some d /\ Unicode.is_decimal d = true.
Proof.
  unfold well_formed. intros H.
  apply andb_prop in H as [H Hdec]. apply andb_prop in H as [_ Hd].
  destruct (digits u) as [|d0 ds] eqn:E using rev_ind; [discriminate|].
  exists d0. split.
  - unfold render. rewrite E, !app_assoc. apply last_snoc.
  - rewrite forallb_app in Hdec. simpl in Hdec.
    now destruct (Unicode.is_decimal d0); [|rewrite andb_false_r in Hdec].
Qed.

(** ** Rules of the triples *)

Section Rules.

Context {A B : Type}.
Implicit Types (P : world -> Prop) (R : world -> Prop).

Lemma triple_ret P (a : A) (Q : A -> world -> Prop) R :
  (forall w, P w -> Q a w) -> triple P (ret a) Q R.
Proof. intros H w Hw. now apply H. Qed.

Lemma triple_raise P e (Q : A -> world -> Prop) R :
  (forall w, P w -> R w) -> triple P (raise e) Q R.
Proof. intros H w Hw. now apply H. Qed.

Lemma triple_lift P (r : result A) (Q : A -> world -> Prop) R :
  (forall w a, P w -> r = Ok a -> Q a w) -> (forall w, P w -> R w) ->
  triple P (lift r) Q R.
Proof. intros HQ HR w Hw. unfold lift. destruct r; [now apply HQ | now apply HR]. Qed.

Lemma triple_bind P (m : M A) (f : A -> M B) (Q' : A -> world -> Prop)
    (Q : B -> world -> Prop) R :
  triple P m Q' R -> (forall a, triple (Q' a) (f a) Q R) ->
  triple P (bind m f) Q R.
Proof.
  intros Hm Hf w Hw. unfold bind. specialize (Hm w Hw).
  destruct (m w) as [[a|e] w']; [now apply Hf | assumption].
Qed.

Lemma triple_try P (body : M A) handler (Q : A -> world -> Prop) R' R :
  triple P body Q R' -> (forall e, triple R' (handler e) Q R) ->
  triple P (try_ body handler) Q R.
Proof.
  intros Hb Hh w Hw. unfold try_. specialize (Hb w Hw).
  destruct (body w) as [[a|e] w']; [assumption | now apply Hh].
Qed.

Lemma triple_weaken P P' (m : M A) (Q Q' : A -> world -> Prop) R R' :
  triple P' m Q' R' ->
  (forall w, P w -> P' w) -> (forall a w, Q' a w -> Q a w) ->
  (forall w, R' w -> R w) ->
  triple P m Q R.
Proof.
  intros Hm HP HQ HR w Hw. specialize (Hm w (HP w Hw)).
  destruct (m w) as [[a|e] w']; [now apply HQ | now apply HR].
Qed.

End Rules.

Lemma triple_emit P e (Q : unit -> world -> Prop) R :
  (forall w, P w -> Q tt (emit_w e w)) -> triple P (emit e) Q R.
Proof. intros H w Hw. now apply H. Qed.

Lemma triple_session_setitem P key v (Q : unit -> world -> Prop) R :
  (forall w, P w -> Q tt (set_w key v w)) ->
  triple P (session_setitem key v) Q R.
Proof. intros H w Hw. now apply H. Qed.

Lemma triple_session_delitem P key (Q : unit -> world -> Prop) R :
  (forall w, P w -> Q tt (del_w key w)) -> (forall w, P w -> R w) ->
  triple P (session_delitem key) Q R.
Proof.
  intros HQ HR w Hw. unfold session_delitem.
  destruct (session_state w !! key); [now apply HQ | now apply HR].
Qed.

Lemma triple_session_get P key dflt R :
  triple P (session_get key dflt)
    (fun v w => P w /\ v = default dflt (session_state w !! key)) R.
Proof. intros w Hw. simpl. auto. Qed.

Lemma triple_session_getitem P key R :
  (forall w, P w -> R w) ->
  triple P (session_getitem key)
    (fun v w => P w /\ session_state w !! key = Some v) R.
Proof.
  intros HR w Hw. unfold session_getitem, getitem.
  destruct (session_state w !! key); [auto | now apply HR].
Qed.

Section Keeps.

Variables I J : world -> Prop.
Hypothesis IJ : forall w, I w -> J w.

Lemma keeps_bind {A B} (m : M A) (f : A -> M B) :
  keeps I J m -> (forall a, keeps I J (f a)) -> keeps I J (bind m f).
Proof. intros Hm Hf. eapply triple_bind; [exact Hm | exact Hf]. Qed.

Lemma keeps_ret {A} (a : A) : keeps I J (ret a).
Proof. now apply triple_ret. Qed.

Lemma keeps_raise {A} e : keeps I J (@raise A e).
Proof. now apply triple_raise. Qed.

Lemma keeps_lift {A} (r : result A) : keeps I J (lift r).
Proof. now apply triple_lift. Qed.

Lemma keeps_session_getitem key : keeps I J (session_getitem key).
Proof.
  eapply triple_weaken; [apply (triple_session_getitem I key J IJ) | | |];
    cbv beta; intuition.
Qed.

Lemma keeps_session_get key dflt : keeps I J (session_get key dflt).
Proof.
  eapply triple_weaken; [apply (triple_session_get I key dflt J) | | |];
    cbv beta; intuition.
Qed.

Lemma keeps_try {A} (body : M A) handler :
  keeps I I body -> (forall e, keeps I J (handler e)) ->
  keeps I J (try_ body handler).
Proof. intros Hb Hh. eapply triple_try; [exact Hb | exact Hh]. Qed.

End Keeps.

(** ** The access gate keeps every gate invariant *)

Section Gate.

Variables (E : env) (U : ui) (I : world -> Prop).
Hypothesis HI : gate_invariant I.

Lemma keeps_emit e : api_event e = false -> keeps I I (emit e).
Proof. intros He. apply triple_emit. intros w. now apply gi_emit. Qed.

Lemma keeps_set_input v : keeps I I (session_setitem "password_input" v).
Proof. apply triple_session_setitem. intros w. now apply gi_input. Qed.

Lemma keeps_set_flag b : keeps I I (session_setitem FLAG (VBool b)).
Proof. apply triple_session_setitem. intros w. now apply gi_flag. Qed.

Lemma keeps_del key : keeps I I (session_delitem key).
Proof.
  apply triple_session_delitem; [|auto]. intros w. now apply gi_del.
Qed.

Ltac gate_step :=
  first
    [ apply keeps_ret | apply keeps_raise; auto | apply keeps_lift; auto
    | apply keeps_emit; reflexivity | apply keeps_set_input
    | apply keeps_set_flag | apply keeps_del
    | apply keeps_session_getitem; auto
    | apply keeps_bind; [|intros ?] ].

Lemma password_entered_keeps : keeps I I (password_entered E).
Proof.
  unfold password_entered, secrets_getitem.
  do 3 (apply keeps_bind; [gate_step | intros ?]).
  match goal with |- keeps _ _ (if ?b then _ else _) => destruct b end;
    repeat gate_step.
Qed.

Lemma check_password_keeps :
  triple I (check_password E U)
    (fun ok w => ok = true /\ I w /\ authenticated (session_state w) = true)
    I.
Proof.
  unfold check_password.
  eapply triple_bind; [apply triple_session_get | intros flag].
  destruct (truthy flag) eqn:Hflag.
  { apply triple_ret. intros w [Hw ->]. auto. }
  eapply triple_weaken with (P' := I) (R' := I);
    [ | intros w [Hw _]; exact Hw | intros ? w H; exact H | auto ].
  do 7 (eapply triple_bind; [
    first [ apply keeps_emit; reflexivity | apply keeps_set_input
          | destruct (submit_clicked U);
            [apply password_entered_keeps | apply keeps_ret] ]
    | intros ? ]).
  eapply triple_bind; [apply triple_session_get | intros flag'].
  destruct (truthy flag') eqn:Hflag'; cbn [negb].
  - apply triple_ret. intros w [Hw ->]. auto.
  - eapply triple_weaken with (P' := I) (R' := I) (Q' := fun _ _ => False);
      [ | intros w [Hw _]; exact Hw | intros ? w [] | auto ].
    eapply triple_bind; [apply keeps_emit; reflexivity | intros ?].
    apply triple_raise. auto.
Qed.

(** The whole script keeps the invariant as soon as the protected part
    does, entered with the flag set. *)
Lemma main_keeps :
  (forall config,
      triple (fun w => I w /\ authenticated (session_state w) = true)
        (main_content E U config) (fun _ => I) I) ->
  keeps I I (main E U).
Proof.
  intros Hcontent. unfold main, load_config.
  apply keeps_bind.
  { apply keeps_bind; [apply keeps_lift; auto|].
    intros config. destruct (secrets_config E); apply keeps_ret. }
  intros config.
  do 4 (apply keeps_bind; [gate_step | intros ?]).
  eapply triple_bind; [apply check_password_keeps | intros ok].
  destruct ok.
  - eapply triple_weaken; [apply (Hcontent config) | | |]; cbv beta; intuition.
  - apply triple_ret. intuition.
Qed.

End Gate.

(** ** The two invariants of the gate *)

Lemma flag_ok_authenticated s :
  flag_ok s -> authenticated s = true -> s !! FLAG = Some (VBool true).
Proof.
  unfold authenticated, flag_ok, FLAG.
  intros [H|[b H]]; rewrite H; cbn; [discriminate | now intros ->].
Qed.

Lemma gated_invariant : gate_invariant gated.
Proof.
  split; unfold gated, emit_w, set_w, del_w; cbn [session_state log].
  - intros e w He [Hs Hl]. split; [assumption|].
    apply Forall_app. split; [assumption|].
    constructor; [|constructor]. unfold entry_ok. cbn [what]. congruence.
  - intros v w [Hs Hl]. split; [|assumption].
    unfold flag_ok in *. now rewrite lookup_insert_ne.
  - intros b w [Hs Hl]. split; [|assumption].
    right. exists b. apply lookup_insert_eq.
  - intros key w [Hs Hl]. split; [|assumption].
    unfold flag_ok in *. rewrite lookup_delete.
    case_decide; [now left | assumption].
Qed.

Lemma api_free_invariant : gate_invariant api_free.
Proof.
  split; unfold api_free, emit_w, set_w, del_w; cbn [session_state log]; auto.
  intros e w He Hl. apply Forall_app. split; [assumption|].
  constructor; [assumption | constructor].
Qed.

Lemma unlocked_gated w : unlocked w -> gated w.
Proof. now intros [H _]. Qed.

Lemma gated_unlocked w :
  gated w -> authenticated (session_state w) = true -> unlocked w.
Proof.
  intros Hg Ha. split; [assumption|].
  apply flag_ok_authenticated; [apply Hg | assumption].
Qed.

(** ** The protected part, entered with the flag set *)

Section Protected.

Variables (E : env) (U : ui).

(** With the flag set, any event may be logged. *)
Lemma unlocked_emit J e : keeps unlocked J (emit e).
Proof.
  apply triple_emit. intros w [[Hs Hl] Hf].
  unfold unlocked, gated, emit_w. cbn [session_state log].
  repeat split; try assumption.
  apply Forall_app. split; [assumption|].
  constructor; [|constructor]. intros _. exact Hf.
Qed.

Section Posting.

Variable J : world -> Prop.
Hypothesis HJ : forall w, unlocked w -> J w.

Lemma create_tweet_unlocked client text q :
  keeps unlocked J (create_tweet E client text q).
Proof.
  unfold create_tweet.
  apply keeps_bind; [apply unlocked_emit | intros ?; now apply keeps_lift].
Qed.

Lemma post_message_unlocked client message :
  keeps unlocked J (post_message E client message).
Proof. apply create_tweet_unlocked. Qed.

Lemma post_quote_unlocked client message q :
  keeps unlocked J (post_quote E client message q).
Proof.
  unfold post_quote. apply keeps_bind.
  - destruct (startswith q (py "http")); [now apply keeps_lift | apply keeps_ret].
  - intros id. destruct (negb (isdigit id));
      [now apply keeps_raise | apply create_tweet_unlocked].
Qed.

End Posting.

Lemma on_post_unlocked client : keeps unlocked gated (on_post E U client).
Proof.
  unfold on_post. destruct (text_typed U); [apply unlocked_emit|].
  apply keeps_try.
  - apply keeps_bind; [|intros ?; apply unlocked_emit].
    destruct (quote_url_typed U);
      [apply post_message_unlocked | apply post_quote_unlocked]; auto.
  - intros e. destruct e;
      first [apply unlocked_emit | apply keeps_raise; apply unlocked_gated].
Qed.

Lemma on_logout_gated : triple unlocked on_logout (fun _ => gated) gated.
Proof.
  intros w [Hw _].
  unfold on_logout, bind, session_contains, session_delitem, raise, ret.
  destruct (session_state w !! "password_correct") eqn:Ef; cbn; rewrite ?Ef.
  - now apply (gi_del _ gated_invariant).
  - assumption.
Qed.

Lemma main_content_unlocked config :
  triple unlocked (main_content E U config) (fun _ => gated) gated.
Proof.
  unfold main_content, load_credentials, new_client, secrets_getitem.
  pose proof unlocked_gated as HG.
  eapply triple_bind.
  { do 4 (apply keeps_bind; [now apply keeps_lift | intros ?]).
    apply keeps_ret. }
  intros creds. eapply triple_bind.
  { apply keeps_bind; [apply unlocked_emit | intros ?; apply keeps_ret]. }
  intros client.
  do 7 (eapply triple_bind; [
    first [ apply unlocked_emit | now apply keeps_lift ] | intros ? ]).
  eapply triple_bind.
  { destruct (post_clicked U); [apply on_post_unlocked | apply keeps_ret]. }
  intros ?. eapply triple_bind; [apply unlocked_emit | intros ?].
  destruct (logout_clicked U); [apply on_logout_gated|].
  apply triple_ret. exact HG.
Qed.

End Protected.

Lemma main_gated E U : keeps gated gated (main E U).
Proof.
  apply main_keeps; [apply gated_invariant|]. intros config.
  eapply triple_weaken; [apply main_content_unlocked | | |]; cbv beta; auto.
  intros w [Hg Ha]. now apply gated_unlocked.
Qed.

Lemma run_gated E U s : flag_ok s -> gated (snd (run E U s)).
Proof.
  intros Hs. unfold run.
  pose proof (main_gated E U {| session_state := s; log := [] |}) as H.
  unfold keeps, triple in H.
  destruct (main E U _) as [[a|e] w']; apply H; split; auto; constructor.
Qed.

(** In a reachable session the flag is absent or a boolean. *)
Lemma reachable_flag_ok s : reachable s -> flag_ok s.
Proof.
  induction 1 as [|E U s _ IH]; [left; apply lookup_empty|].
  now apply run_gated.
Qed.

(** ** The password callback, case by case *)

Lemma compare_digest_ascii x y :
  forallb Unicode.is_ascii x = true -> forallb Unicode.is_ascii y = true ->
  hmac.compare_digest (VStr x) (VStr y) = Ok (bool_decide (x = y)).
Proof. intros Hx Hy. unfold hmac.compare_digest. now rewrite Hx, Hy. Qed.

Lemma compare_digest_non_ascii x y :
  forallb Unicode.is_ascii x && forallb Unicode.is_ascii y = false ->
  exists msg, hmac.compare_digest (VStr x) (VStr y) = Raise (TypeError msg).
Proof. intros H. unfold hmac.compare_digest. rewrite H. eauto. Qed.

Section Callback.

Variables (E : env) (w : world) (entered secret : pyval).
Hypothesis Hentered : session_state w !! "password_input" = Some entered.
Hypothesis Hsecret : secrets E !! "APP_PASSWORD" = Some secret.

(** Both branches: the verdict becomes the flag and the typed password
    leaves the session. *)
Lemma password_entered_verdict same :
  hmac.compare_digest entered secret = Ok same ->
  password_entered E w
  = (Ok tt, del_w "password_input" (set_w FLAG (VBool same) w)).
Proof.
  intros Hc.
  unfold password_entered, bind, session_getitem, secrets_getitem, lift,
    getitem.
  rewrite Hentered, Hsecret, Hc.
  destruct same; unfold session_setitem, session_delitem, set_w;
    cbn [session_state];
    rewrite lookup_insert_ne, Hentered by discriminate; reflexivity.
Qed.

(** No branch: the comparison raises and nothing is stored or deleted. *)
Lemma password_entered_raises e :
  hmac.compare_digest entered secret = Raise e ->
  password_entered E w = (Raise e, w).
Proof.
  intros Hc.
  unfold password_entered, bind, session_getitem, secrets_getitem, lift,
    getitem.
  now rewrite Hentered, Hsecret, Hc.
Qed.

End Callback.

(** ** A submission at the locked gate *)

Section Submission.

Variables (E : env) (U : ui) (w : world) (secret : pyval).
Hypothesis Hlocked : authenticated (session_state w) = false.
Hypothesis Hsubmit : submit_clicked U = true.
Hypothesis Hsecret : secrets E !! "APP_PASSWORD" = Some secret.

Lemma login_form_input :
  session_state (login_form U w) !! "password_input"
  = Some (VStr (password_typed U)).
Proof. unfold login_form, emit_w, set_w. cbn. apply lookup_insert_eq. Qed.

(** The comparison returns: the gate opens exactly when it returns [True],
    and otherwise stops the run on the message for an incorrect password;
    either way only the flag is left of the submission. *)
Lemma check_password_verdict same :
  hmac.compare_digest (VStr (password_typed U)) secret = Ok same ->
  check_password E U w
  = let w' := del_w "password_input" (set_w FLAG (VBool same) (login_form U w)) in
    if same then (Ok true, w')
    else (Raise StopException, emit_w (ErrorMessage incorrect_password) w').
Proof.
  intros Hc. unfold authenticated in Hlocked.
  unfold check_password. unfold bind at 1. unfold session_get at 1.
  rewrite Hlocked, Hsubmit.
  unfold bind at 1 2 3 4 5 6. cbn [emit session_setitem].
  unfold bind at 1.
  match goal with
  | |- context [password_entered E ?w0] =>
      change w0 with (login_form U w);
      rewrite (password_entered_verdict E (login_form U w) _ secret
                 login_form_input Hsecret same Hc)
  end.
  unfold bind, session_get. cbn [session_state del_w set_w].
  rewrite lookup_delete_ne, lookup_insert_eq by discriminate.
  destruct same; reflexivity.
Qed.

(** The comparison raises: the run ends on that exception, with the typed
    password still in the session and the flag untouched. *)
Lemma check_password_raises e :
  hmac.compare_digest (VStr (password_typed U)) secret = Raise e ->
  check_password E U w = (Raise e, login_form U w).
Proof.
  intros Hc. unfold authenticated in Hlocked.
  unfold check_password. unfold bind at 1. unfold session_get at 1.
  rewrite Hlocked, Hsubmit.
  unfold bind at 1 2 3 4 5 6. cbn [emit session_setitem].
  unfold bind at 1.
  match goal with
  | |- context [password_entered E ?w0] =>
      change w0 with (login_form U w);
      rewrite (password_entered_raises E (login_form U w) _ secret
                 login_form_input Hsecret e Hc)
  end.
  reflexivity.
Qed.

End Submission.

(** With an ASCII secret and an ASCII submission the verdict is equality:
    the gate opens exactly when the two strings are equal. *)
Lemma check_password_ascii E U w secret :
  authenticated (session_state w) = false ->
  submit_clicked U = true ->
  secrets E !! "APP_PASSWORD" = Some (VStr secret) ->
  forallb Unicode.is_ascii (password_typed U) = true ->
  forallb Unicode.is_ascii secret = true ->
  check_password E U w
  = let same := bool_decide (password_typed U = secret) in
    let w' := del_w "password_input" (set_w FLAG (VBool same) (login_form U w)) in
    if same then (Ok true, w')
    else (Raise StopException, emit_w (ErrorMessage incorrect_password) w').
Proof.
  intros Hlocked Hsubmit Hsecret Htyped Has.
  apply (check_password_verdict E U w (VStr secret)); try assumption.
  now apply compare_digest_ascii.
Qed.

(** A submission with a character outside ASCII, or against a secret with
    one, never reaches a verdict. *)
Lemma check_password_non_ascii E U w secret :
  authenticated (session_state w) = false ->
  submit_clicked U = true ->
  secrets E !! "APP_PASSWORD" = Some (VStr secret) ->
  forallb Unicode.is_ascii (password_typed U)
  && forallb Unicode.is_ascii secret = false ->
  exists msg,
    check_password E U w = (Raise (TypeError msg), login_form U w).
Proof.
  intros Hlocked Hsubmit Hsecret Hna.
  destruct (compare_digest_non_ascii _ _ Hna) as [msg Hc].
  exists msg. now apply (check_password_raises E U w (VStr secret)).
Qed.

(** ** Missing credentials *)

Section Missing.

Variable E : env.
Hypothesis Hmissing :
  exists key, In key credential_keys /\ secrets E !! key = None.

Lemma load_credentials_missing w :
  exists key, In key credential_keys /\ secrets E !! key = None
    /\ load_credentials E w = (Raise (KeyError key), w).
Proof.
  unfold load_credentials, bind, secrets_getitem, lift, getitem, ret.
  destruct (secrets E !! "CONSUMER_KEY") eqn:E1;
    [|exists "CONSUMER_KEY"; cbn; auto 6].
  destruct (secrets E !! "CONSUMER_SECRET") eqn:E2;
    [|exists "CONSUMER_SECRET"; cbn; auto 6].
  destruct (secrets E !! "ACCESS_TOKEN") eqn:E3;
    [|exists "ACCESS_TOKEN"; cbn; auto 6].
  destruct (secrets E !! "ACCESS_TOKEN_SECRET") eqn:E4;
    [|exists "ACCESS_TOKEN_SECRET"; cbn; auto 7].
  destruct Hmissing as (key & Hin & Hnone). cbn in Hin.
  destruct Hin as [<-|[<-|[<-|[<-|[]]]]]; congruence.
Qed.

Lemma main_content_missing U config w :
  exists key, In key credential_keys /\ secrets E !! key = None
    /\ main_content E U config w = (Raise (KeyError key), w).
Proof.
  destruct (load_credentials_missing w) as (key & Hin & Hnone & Hload).
  exists key. repeat split; try assumption.
  unfold main_content, bind at 1. now rewrite Hload.
Qed.

Lemma main_api_free U : keeps api_free api_free (main E U).
Proof.
  apply main_keeps; [apply api_free_invariant|].
  intros config w [Hw _].
  destruct (main_content_missing U config w) as (key & _ & _ & ->).
  exact Hw.
Qed.

End Missing.

(** * The claims *)

(** ** Identifier extraction *)

(** C1. For every string of the post-URL shape (scheme [http] or [https],
    optional [www.], host [x.com] or [twitter.com], then a user segment
    without slash, [/status/] and a sequence of digits), the extractor
    returns exactly that sequence of digits. *)
Theorem extract_returns_digits (u : post_url) :
  well_formed u = true ->
  extract_tweet_id_from_url (render u) = Ok (digits u).
Proof.
  intros H. rewrite <- (app_nil_r (render u)).
  rewrite extract_render by assumption. cbn [leading]. now rewrite app_nil_r.
Qed.

Lemma extract_returns_digits_witness :
  well_formed alice_url = true
  /\ extract_tweet_id_from_url (render alice_url) = Ok (digits alice_url).
Proof.
  split; [reflexivity | apply (extract_returns_digits alice_url); reflexivity].
Defined.

(** C2, as stated, fails: a string with a non-digit suffix after the
    identifier does not have the post-URL shape, and the extractor accepts
    it and returns the digits before the suffix. *)
Lemma non_digit_suffix_accepted :
  ~ post_url_shape (py "https://x.com/u/status/123abc")
  /\ extract_tweet_id_from_url (py "https://x.com/u/status/123abc")
     = Ok (py "123").
Proof.
  split; [|vm_compute; reflexivity].
  intros (u & Hwf & Hu).
  destruct (last_render u Hwf) as (d & Hlast & Hd).
  rewrite <- Hu in Hlast. vm_compute in Hlast.
  injection Hlast as <-. vm_compute in Hd. discriminate.
Qed.

(** C2, amended. For every string no prefix of which has the post-URL
    shape (wrong host, no [/status/] segment, no digit right after
    [/status/]), the extractor fails with the [ValueError] that stands for
    [InvalidURL], and its message ends with the offending string. *)
Theorem extract_rejects_other_strings (url : pystr) :
  ~ begins_with_post_url url ->
  extract_tweet_id_from_url url = Raise (InvalidURL url).
Proof.
  intros H. unfold extract_tweet_id_from_url.
  destruct (match_ pattern url) as [m|] eqn:Em; [|reflexivity].
  exfalso. apply H. now apply match_sound with m.
Qed.

Lemma extract_rejects_other_strings_witness :
  ~ begins_with_post_url (py "https://example.com/u/status/1")
  /\ extract_tweet_id_from_url (py "https://example.com/u/status/1")
     = Raise (InvalidURL (py "https://example.com/u/status/1")).
Proof.
  assert (H : ~ begins_with_post_url (py "https://example.com/u/status/1")).
  { intros [id Hid]%begins_extract_ok. vm_compute in Hid. discriminate. }
  split; [exact H | apply (extract_rejects_other_strings _ H)].
Defined.

(** C3. Extraction matches a prefix: for every string that begins with a
    post URL, whatever follows it, the extractor succeeds and returns the
    digits that lead what comes after [/status/]: the digits of the post
    URL, and with them the decimal digits the trailing content starts with,
    if any.  When the trailing content is empty or starts with another
    character, these are exactly the digits of the post URL. *)
Theorem extract_is_prefix_match (u : post_url) (trailing : pystr) :
  well_formed u = true ->
  extract_tweet_id_from_url (render u ++ trailing)
  = Ok (digits u ++ leading Unicode.is_decimal trailing)
  /\ (leading Unicode.is_decimal trailing = [] ->
      extract_tweet_id_from_url (render u ++ trailing) = Ok (digits u)).
Proof.
  intros H. rewrite extract_render by assumption. split; [reflexivity|].
  intros ->. now rewrite app_nil_r.
Qed.

Lemma extract_is_prefix_match_witness :
  well_formed alice_url = true
  /\ extract_tweet_id_from_url (render alice_url ++ py "/photo/1")
     = Ok (py "1234567890123456789").
Proof.
  split; [reflexivity|].
  apply (extract_is_prefix_match alice_url (py "/photo/1"));
    reflexivity.
Defined.

(** ** Quote resolution *)

(** What the guard of [post_quote] does turn down: a reference that does
    not start with [http] and fails [str.isdigit], the empty string
    included, raises the [ValueError] that stands for [ValidationError]
    before any call to the client. *)
Lemma post_quote_rejects_non_digits (E : env) (client : credentials)
    (message ref : pystr) (w : world) :
  startswith ref (py "http") = false ->
  isdigit ref = false ->
  post_quote E client message ref w = (Raise ValidationError, w).
Proof.
  intros Hhttp Hdigit. unfold post_quote, bind.
  rewrite Hhttp. unfold ret. rewrite Hdigit. reflexivity.
Qed.

(** C4, at a reference that only [str.isdigit] takes for digits.  A
    superscript two, or two circled digits, does not start with [http] and
    is not a string of decimal digits, let alone a numeric identifier, and
    [post_quote] does not fail on it: it calls the client with the
    reference as the quoted identifier and returns what the client
    returns. *)
Theorem post_quote_sends_superscript (E : env) (client : credentials)
    (message : pystr) (w : world) :
  (startswith [178] (py "http") = false
   /\ forallb Unicode.is_decimal [178] = false
   /\ post_quote E client message [178] w
      = (api E client message (Some [178]),
         emit_w (CreateTweet message (Some [178])) w))
  /\ (startswith [9312; 9313] (py "http") = false
      /\ forallb Unicode.is_decimal [9312; 9313] = false
      /\ post_quote E client message [9312; 9313] w
         = (api E client message (Some [9312; 9313]),
            emit_w (CreateTweet message (Some [9312; 9313])) w)).
Proof. repeat split; reflexivity. Qed.

(** C5. A non-empty string of digits is its own identifier: [post_quote]
    leaves it unchanged and calls the client with it as the quoted
    identifier. *)
Theorem post_quote_keeps_numeric_reference (E : env) (client : credentials)
    (message ref : pystr) (w : world) :
  isdigit ref = true ->
  post_quote E client message ref w
  = (api E client message (Some ref),
     emit_w (CreateTweet message (Some ref)) w).
Proof.
  intros Hdigit. unfold post_quote, bind.
  rewrite (isdigit_not_http _ Hdigit). unfold ret. rewrite Hdigit.
  reflexivity.
Qed.

Lemma post_quote_keeps_numeric_reference_witness :
  isdigit (py "123456789") = true
  /\ post_quote demo_env demo_creds (py "hello") (py "123456789") world0
     = (Ok (Response (py "1")),
        emit_w (CreateTweet (py "hello") (Some (py "123456789"))) world0).
Proof.
  split; [reflexivity|].
  apply (post_quote_keeps_numeric_reference demo_env demo_creds (py "hello")
           (py "123456789") world0); reflexivity.
Defined.

(** ** The access gate *)

(** C6, at a password outside ASCII.  Submitting [é] against the secret
    [secret] raises the [TypeError] of [hmac.compare_digest]: the session
    stays locked, and the run ends on that exception instead of the message
    for an incorrect password.  When the configured secret itself is outside
    ASCII, submitting it raises in the same way and does not unlock. *)
Theorem non_ascii_password_raises :
  (fst (run demo_env (submit_password [233]) ∅)
   = Raise (TypeError
       (py "comparing strings with non-ASCII characters is not supported"))
   /\ session_state (snd (run demo_env (submit_password [233]) ∅)) !! FLAG
      = None
   /\ ~ In (ErrorMessage incorrect_password)
          (map what (log (snd (run demo_env (submit_password [233]) ∅)))))
  /\ (fst (run accented_env (submit_password [112; 228; 115; 115]) ∅)
      = Raise (TypeError
          (py "comparing strings with non-ASCII characters is not supported"))
      /\ session_state
           (snd (run accented_env (submit_password [112; 228; 115; 115]) ∅))
         !! FLAG = None).
Proof.
  repeat split; try (vm_compute; reflexivity).
  vm_compute. intros H.
  repeat (destruct H as [H|H]; [discriminate H|]). exact H.
Qed.

(** C10, at a password outside ASCII.  After submitting [é] the comparison
    has raised before either branch, and the typed password is still in the
    session state under [password_input]. *)
Theorem non_ascii_password_stays_in_session :
  session_state (snd (run demo_env (submit_password [233]) ∅))
    !! "password_input" = Some (VStr [233]).
Proof. vm_compute. reflexivity. Qed.

(** C7. In every reachable session and for every run from it, each action
    on the posting API in the log of the run (building the client, sending
    a post or a quote-post) was taken in a session state whose
    authenticated flag is [True]; a run that is locked at some point takes
    no such action at that point. *)
Theorem api_only_when_authenticated (E : env) (U : ui)
    (s : gmap string pyval) (en : entry) :
  reachable s ->
  In en (log (snd (run E U s))) ->
  api_event (what en) = true ->
  session_then en !! FLAG = Some (VBool true).
Proof.
  intros Hs Hin Hapi.
  destruct (run_gated E U s (reachable_flag_ok s Hs)) as [_ Hlog].
  rewrite Forall_forall in Hlog.
  apply Hlog; [now apply list_elem_of_In | assumption].
Qed.

Lemma signed_in_reachable : reachable signed_in.
Proof.
  pose proof (reachable_run demo_env (submit_password (py "secret")) ∅
                reachable_new) as H.
  vm_compute in H. vm_compute. exact H.
Qed.

Lemma api_only_when_authenticated_witness :
  reachable signed_in
  /\ In quote_alice_call (log (snd (run demo_env quote_alice signed_in)))
  /\ api_event (what quote_alice_call) = true
  /\ session_then quote_alice_call !! FLAG = Some (VBool true).
Proof.
  assert (Hin : In quote_alice_call
                  (log (snd (run demo_env quote_alice signed_in)))).
  { vm_compute. do 8 right. left. reflexivity. }
  split; [exact signed_in_reachable|].
  split; [exact Hin|]. split; [reflexivity|].
  apply (api_only_when_authenticated demo_env quote_alice signed_in
           quote_alice_call signed_in_reachable Hin); reflexivity.
Defined.

(** ** Credentials *)

(** C8, as stated, fails: with no credential in the secret store the page
    still serves the login form and checks a submitted password; the run
    ends at the gate with the message for an incorrect password, not with
    a fatal error. *)
Lemma login_served_without_credentials :
  (exists key, In key credential_keys /\ secrets bare_env !! key = None)
  /\ fst (run bare_env (submit_password (py "nope")) ∅) = Raise StopException
  /\ In (ErrorMessage incorrect_password)
        (map what (log (snd (run bare_env (submit_password (py "nope")) ∅))))
  /\ session_state (snd (run bare_env (submit_password (py "nope")) ∅)) !! FLAG
     = Some (VBool false).
Proof.
  split; [exists "CONSUMER_KEY"; split; [now left | reflexivity]|].
  repeat split; try (vm_compute; reflexivity).
  vm_compute. do 7 right. left. reflexivity.
Qed.

(** C8, amended. When any of the four credential fields is missing from
    the secret store, the protected part of every run that has passed the
    gate fails at once with the [KeyError] of a missing field, before the
    client is built, and no run builds the client or sends a post. *)
Theorem missing_credentials_block_posting (E : env) :
  (exists key, In key credential_keys /\ secrets E !! key = None) ->
  (forall U config w,
      exists key, In key credential_keys /\ secrets E !! key = None
        /\ main_content E U config w = (Raise (KeyError key), w))
  /\ (forall U s, api_free (snd (run E U s))).
Proof.
  intros Hmissing. split.
  - intros U config w. now apply main_content_missing.
  - intros U s. unfold run.
    pose proof (main_api_free E Hmissing U {| session_state := s; log := [] |})
      as H.
    unfold keeps, triple in H.
    destruct (main E U _) as [[a|e] w']; apply H; constructor.
Qed.

Lemma missing_credentials_block_posting_witness :
  (exists key, In key credential_keys /\ secrets bare_env !! key = None)
  /\ api_free (snd (run bare_env (submit_password (py "secret")) ∅)).
Proof.
  assert (H : exists key, In key credential_keys
                          /\ secrets bare_env !! key = None).
  { exists "CONSUMER_KEY". split; [now left | reflexivity]. }
  split; [exact H|].
  apply (missing_credentials_block_posting bare_env H).
Defined.

(** * Further properties of the script *)

(** ** Configuration and credentials *)

(** X2. [load_credentials] succeeds exactly when the four fields are in the
    secret store, returns them as stored and leaves the world as it is;
    otherwise it raises the [KeyError] of the first field, in the order
    consumer key, consumer secret, access token, access token secret, that
    is missing. *)
Theorem load_credentials_outcome (E : env) (w : world) :
  match first_missing (secrets E) with
  | Some key =>
      In key credential_keys /\ secrets E !! key = None
      /\ load_credentials E w = (Raise (KeyError key), w)
  | None =>
      exists ck cs at_ ats,
        secrets E !! "CONSUMER_KEY" = Some ck
        /\ secrets E !! "CONSUMER_SECRET" = Some cs
        /\ secrets E !! "ACCESS_TOKEN" = Some at_
        /\ secrets E !! "ACCESS_TOKEN_SECRET" = Some ats
        /\ load_credentials E w = (Ok (Credentials ck cs at_ ats), w)
  end.
Proof.
  unfold first_missing, credential_keys, load_credentials, bind,
    secrets_getitem, lift, getitem, ret.
  cbn [List.find].
  destruct (secrets E !! "CONSUMER_KEY") as [ck|] eqn:E1; cbn;
    [|rewrite E1; auto 6].
  destruct (secrets E !! "CONSUMER_SECRET") as [cs|] eqn:E2; cbn;
    [|rewrite E2; auto 6].
  destruct (secrets E !! "ACCESS_TOKEN") as [at_|] eqn:E3; cbn;
    [|rewrite E3; auto 7].
  destruct (secrets E !! "ACCESS_TOKEN_SECRET") as [ats|] eqn:E4; cbn;
    [|rewrite E4; auto 8].
  exists ck, cs, at_, ats. auto 6.
Qed.

(** ** Extraction and quote resolution *)


Lemma startswith_app p t : startswith (p ++ t) p = true.
Proof.
  induction p as [|c p IH]; simpl; [now destruct t|].
  now rewrite N.eqb_refl, IH.
Qed.

Lemma render_startswith_http u trailing :
  startswith (render u ++ trailing) (py "http") = true.
Proof. unfold render. rewrite <- !app_assoc. apply startswith_app. Qed.

Lemma well_formed_digits u :
  well_formed u = true ->
  digits u <> [] /\ forallb Unicode.is_decimal (digits u) = true.
Proof.
  unfold well_formed. intros H.
  apply andb_prop in H as [H Hdec]. apply andb_prop in H as [_ Hd].
  split; [|assumption]. now destruct (digits u).
Qed.

Lemma extract_no_match url :
  ~ begins_with_post_url url ->
  extract_tweet_id_from_url url = Raise (InvalidURL url).
Proof.
  intros H. unfold extract_tweet_id_from_url.
  destruct (match_ pattern url) as [m|] eqn:Em; [|reflexivity].
  exfalso. apply H. now apply match_sound with m.
Qed.


(** X4. Quote resolution composed with extraction: for a reference that
    begins with a post URL, [post_quote] makes one call to the client, with
    the message and, as quoted identifier, the digits the extractor returns
    for that reference. *)
Theorem post_quote_resolves_url (E : env) (client : credentials)
    (message : pystr) (u : post_url) (trailing : pystr) (w : world) :
  well_formed u = true ->
  exists id,
    extract_tweet_id_from_url (render u ++ trailing) = Ok id
    /\ post_quote E client message (render u ++ trailing) w
       = (api E client message (Some id),
          emit_w (CreateTweet message (Some id)) w).
Proof.
  intros Hwf. destruct (well_formed_digits u Hwf) as [Hne Hdec].
  exists (digits u ++ leading Unicode.is_decimal trailing).
  split; [now apply extract_render|].
  unfold post_quote, bind. rewrite render_startswith_http.
  rewrite extract_render by assumption. unfold lift.
  rewrite forallb_decimal_isdigit; [reflexivity | |].
  - destruct (digits u); [contradiction | discriminate].
  - now rewrite forallb_app, Hdec, leading_forallb.
Qed.

Lemma post_quote_resolves_url_witness :
  well_formed alice_url = true
  /\ exists id,
       extract_tweet_id_from_url (render alice_url ++ py "?s=20") = Ok id
       /\ post_quote demo_env demo_creds (py "hello world")
            (render alice_url ++ py "?s=20") world0
          = (api demo_env demo_creds (py "hello world") (Some id),
             emit_w (CreateTweet (py "hello world") (Some id)) world0).
Proof.
  split; [reflexivity|].
  apply (post_quote_resolves_url demo_env demo_creds (py "hello world")
           alice_url (py "?s=20") world0); reflexivity.
Defined.

(** X5. A reference that starts with [http] and does not begin with a post
    URL is never taken as an identifier: [post_quote] fails with the error
    of the extractor, which names the reference, and makes no call to the
    client. *)
Theorem post_quote_rejects_other_urls (E : env) (client : credentials)
    (message ref : pystr) (w : world) :
  startswith ref (py "http") = true ->
  ~ begins_with_post_url ref ->
  post_quote E client message ref w = (Raise (InvalidURL ref), w).
Proof.
  intros Hhttp Hshape. unfold post_quote, bind.
  rewrite Hhttp, (extract_no_match ref Hshape). reflexivity.
Qed.

Lemma post_quote_rejects_other_urls_witness :
  startswith (py "https://x.com/u/status/abc") (py "http") = true
  /\ ~ begins_with_post_url (py "https://x.com/u/status/abc")
  /\ post_quote demo_env demo_creds (py "hello")
       (py "https://x.com/u/status/abc") world0
     = (Raise (InvalidURL (py "https://x.com/u/status/abc")), world0).
Proof.
  assert (H : ~ begins_with_post_url (py "https://x.com/u/status/abc")).
  { intros [id Hid]%begins_extract_ok. vm_compute in Hid. discriminate. }
  split; [reflexivity|]. split; [exact H|].
  apply (post_quote_rejects_other_urls demo_env demo_creds (py "hello")
           (py "https://x.com/u/status/abc") world0); [reflexivity | exact H].
Defined.

(** X6. [post_quote] never sends anything but digits as a quoted
    identifier: either it raises and leaves the world as it is, without a
    call to the client, or it makes exactly one call, whose quoted
    identifier passes [str.isdigit], and returns what the client returns. *)
Theorem post_quote_sends_digits_only (E : env) (client : credentials)
    (message ref : pystr) (w : world) :
  (exists e, post_quote E client message ref w = (Raise e, w))
  \/ exists id,
       isdigit id = true
       /\ post_quote E client message ref w
          = (api E client message (Some id),
             emit_w (CreateTweet message (Some id)) w).
Proof.
  unfold post_quote, bind.
  destruct (startswith ref (py "http")).
  - unfold lift. destruct (extract_tweet_id_from_url ref) as [id|e]; [|eauto].
    destruct (isdigit id) eqn:Hid; cbn [negb]; [right | left]; eauto.
  - unfold ret. destruct (isdigit ref) eqn:Hid; cbn [negb]; [right | left];
      eauto.
Qed.

(** ** The access gate, outcome by outcome *)

Lemma login_form_flag U w :
  session_state (login_form U w) !! FLAG = session_state w !! FLAG.
Proof. unfold login_form, emit_w, set_w. cbn. now rewrite lookup_insert_ne. Qed.

Lemma login_form_authenticated U w :
  authenticated (session_state (login_form U w))
  = authenticated (session_state w).
Proof.
  unfold authenticated. fold FLAG. now rewrite login_form_flag.
Qed.

Lemma verdict_authenticated same w :
  authenticated
    (session_state (del_w "password_input" (set_w FLAG (VBool same) w)))
  = same.
Proof.
  unfold authenticated, del_w, set_w. cbn [session_state].
  now rewrite lookup_delete_ne, lookup_insert_eq.
Qed.

Lemma compare_digest_raises a b e :
  hmac.compare_digest a b = Raise e -> exists msg, e = TypeError msg.
Proof.
  unfold hmac.compare_digest.
  destruct a, b; try (intros [= <-]; eauto).
  destruct (_ && _); [discriminate | intros [= <-]; eauto].
Qed.

(** With the flag set the gate shows nothing and reads nothing. *)
Lemma check_password_skip E U w :
  authenticated (session_state w) = true ->
  check_password E U w = (Ok true, w).
Proof.
  unfold authenticated. intros H.
  unfold check_password, bind, session_get. now rewrite H.
Qed.

Section LockedGate.

Variables (E : env) (U : ui) (w : world).
Hypothesis Hlocked : authenticated (session_state w) = false.

(** Nothing submitted. *)
Lemma locked_without_submission :
  submit_clicked U = false ->
  check_password E U w
  = (Raise StopException,
     emit_w (ErrorMessage incorrect_password) (login_form U w)).
Proof.
  intros Hsubmit. pose proof Hlocked as Hl. unfold authenticated in Hl.
  unfold check_password. unfold bind at 1. unfold session_get at 1.
  rewrite Hl, Hsubmit.
  unfold bind at 1 2 3 4 5 6. cbn [emit session_setitem].
  unfold bind at 1. unfold ret at 1.
  change (emit_w (Button (py "Submit")) _) with (login_form U w).
  unfold bind at 1. unfold session_get.
  pose proof (login_form_authenticated U w) as Hf.
  unfold authenticated in Hf. rewrite Hf, Hl. reflexivity.
Qed.

(** No secret to compare with. *)
Lemma locked_without_secret :
  submit_clicked U = true ->
  secrets E !! "APP_PASSWORD" = None ->
  check_password E U w = (Raise (KeyError "APP_PASSWORD"), login_form U w).
Proof.
  intros Hsubmit Hsecret.
  pose proof Hlocked as Hl. unfold authenticated in Hl.
  unfold check_password. unfold bind at 1. unfold session_get at 1.
  rewrite Hl, Hsubmit.
  unfold bind at 1 2 3 4 5 6. cbn [emit session_setitem].
  unfold bind at 1.
  change (emit_w (Button (py "Submit")) _) with (login_form U w).
  unfold password_entered, bind, session_getitem, secrets_getitem, lift,
    getitem.
  now rewrite login_form_input, Hsecret.
Qed.

End LockedGate.

(** X7. A locked page that is merely loaded, with nothing submitted, shows
    the login form and then the message for an incorrect password, and
    stops: the message does not wait for a submission, and neither the
    secret store nor the flag is touched. *)
Theorem check_password_without_submission (E : env) (U : ui) (w : world) :
  authenticated (session_state w) = false ->
  submit_clicked U = false ->
  check_password E U w
  = (Raise StopException,
     emit_w (ErrorMessage incorrect_password) (login_form U w))
  /\ session_state (login_form U w) !! FLAG = session_state w !! FLAG.
Proof.
  intros Hlocked Hsubmit.
  split; [now apply locked_without_submission | apply login_form_flag].
Qed.

(** X8. A submission against a secret store without [APP_PASSWORD] raises
    the [KeyError] of that field; the flag is not written and the typed
    password stays in the session state. *)
Theorem check_password_without_secret (E : env) (U : ui) (w : world) :
  authenticated (session_state w) = false ->
  submit_clicked U = true ->
  secrets E !! "APP_PASSWORD" = None ->
  check_password E U w = (Raise (KeyError "APP_PASSWORD"), login_form U w)
  /\ session_state (login_form U w) !! "password_input"
     = Some (VStr (password_typed U))
  /\ session_state (login_form U w) !! FLAG = session_state w !! FLAG.
Proof.
  intros Hlocked Hsubmit Hsecret.
  split; [now apply locked_without_secret|].
  split; [apply login_form_input | apply login_form_flag].
Qed.

Lemma check_password_without_submission_witness :
  authenticated (session_state world0) = false
  /\ submit_clicked idle = false
  /\ check_password demo_env idle world0
     = (Raise StopException,
        emit_w (ErrorMessage incorrect_password) (login_form idle world0)).
Proof.
  split; [reflexivity|]. split; [reflexivity|].
  apply (check_password_without_submission demo_env idle world0);
    reflexivity.
Defined.

Lemma check_password_without_secret_witness :
  authenticated (session_state world0) = false
  /\ submit_clicked (submit_password (py "secret")) = true
  /\ secrets no_password_env !! "APP_PASSWORD" = None
  /\ check_password no_password_env (submit_password (py "secret")) world0
     = (Raise (KeyError "APP_PASSWORD"),
        login_form (submit_password (py "secret")) world0).
Proof.
  split; [reflexivity|]. split; [reflexivity|]. split; [reflexivity|].
  apply (check_password_without_secret no_password_env
           (submit_password (py "secret")) world0); reflexivity.
Defined.

(** X9. The outcomes of the gate.  [check_password] returns only [True],
    and only with the flag set in the session state it leaves; when it
    raises, the session state it leaves is not authenticated and the
    exception is the stop of the page, the [KeyError] of a missing
    [APP_PASSWORD] or a [TypeError] of the comparison. *)
Theorem check_password_outcome (E : env) (U : ui) (w : world) :
  match check_password E U w with
  | (Ok ok, w') => ok = true /\ authenticated (session_state w') = true
  | (Raise e, w') =>
      authenticated (session_state w') = false
      /\ (e = StopException \/ e = KeyError "APP_PASSWORD"
          \/ exists msg, e = TypeError msg)
  end.
Proof.
  destruct (authenticated (session_state w)) eqn:Hauth.
  { rewrite check_password_skip by assumption. auto. }
  destruct (submit_clicked U) eqn:Hsubmit.
  2:{ rewrite locked_without_submission by assumption.
      cbn [emit_w session_state]. rewrite login_form_authenticated. auto. }
  destruct (secrets E !! "APP_PASSWORD") as [secret|] eqn:Hsecret.
  2:{ rewrite (locked_without_secret E U w Hauth Hsubmit Hsecret).
      rewrite login_form_authenticated. auto. }
  destruct (hmac.compare_digest (VStr (password_typed U)) secret)
    as [same|e] eqn:Hc.
  - rewrite (check_password_verdict E U w secret Hauth Hsubmit Hsecret same Hc).
    cbv zeta. destruct same.
    + now rewrite verdict_authenticated.
    + cbn [emit_w session_state]. rewrite verdict_authenticated. auto.
  - rewrite (check_password_raises E U w secret Hauth Hsubmit Hsecret e Hc).
    rewrite login_form_authenticated.
    apply compare_digest_raises in Hc. auto.
Qed.

(** ** What showing and posting keep *)

(** The part of the script behind the gate only logs events, up to the
    logout: it keeps every invariant that logging keeps. *)
Section Shown.

Variables (E : env) (U : ui) (I : world -> Prop).
Hypothesis Hemit : forall e w, I w -> I (emit_w e w).

Lemma shown_emit e : keeps I I (emit e).
Proof. apply triple_emit. intros w. apply Hemit. Qed.

Lemma create_tweet_keeps client text q :
  keeps I I (create_tweet E client text q).
Proof.
  unfold create_tweet.
  apply keeps_bind; [apply shown_emit | intros ?; now apply keeps_lift].
Qed.

Lemma post_quote_keeps client message ref :
  keeps I I (post_quote E client message ref).
Proof.
  unfold post_quote. apply keeps_bind.
  - destruct (startswith ref (py "http")); [now apply keeps_lift | apply keeps_ret].
  - intros id. destruct (negb (isdigit id));
      [now apply keeps_raise | apply create_tweet_keeps].
Qed.

Lemma on_post_keeps client : keeps I I (on_post E U client).
Proof.
  unfold on_post. destruct (text_typed U); [apply shown_emit|].
  apply keeps_try.
  - apply keeps_bind; [|intros ?; apply shown_emit].
    destruct (quote_url_typed U);
      [apply create_tweet_keeps | apply post_quote_keeps].
  - intros e. destruct e; first [apply shown_emit | now apply keeps_raise].
Qed.

Lemma before_logout_keeps config (rest : M unit) :
  keeps I I rest ->
  keeps I I
    (bind (load_credentials E) (fun creds =>
     bind (new_client creds) (fun client =>
     bind (emit (Title (py "Post on X"))) (fun _ =>
     bind (emit (Markdown (py "Enter the text and optionally a URL to quote."))) (fun _ =>
     bind (lift (getitem config "textarea_max_chars")) (fun max_chars =>
     bind (lift (getitem config "textarea_height")) (fun height =>
     bind (emit (TextArea max_chars height)) (fun _ =>
     bind (emit (TextInput (py "URL of the post to quote (optional)"))) (fun _ =>
     bind (emit (Button (py "Post on X"))) (fun _ =>
     bind (if post_clicked U then on_post E U client else ret tt) (fun _ =>
     bind (emit (Button (py "Logout"))) (fun _ => rest)))))))))))).
Proof.
  intros Hrest. unfold load_credentials, new_client, secrets_getitem.
  apply keeps_bind.
  { do 4 (apply keeps_bind; [now apply keeps_lift | intros ?]).
    apply keeps_ret. }
  intros creds. apply keeps_bind.
  { apply keeps_bind; [apply shown_emit | intros ?; apply keeps_ret]. }
  intros client.
  do 7 (apply keeps_bind; [
    first [ apply shown_emit | now apply keeps_lift ] | intros ? ]).
  apply keeps_bind.
  { destruct (post_clicked U); [apply on_post_keeps | apply keeps_ret]. }
  intros ?. apply keeps_bind; [apply shown_emit | intros ?; exact Hrest].
Qed.

Lemma main_content_keeps_without_logout config :
  logout_clicked U = false -> keeps I I (main_content E U config).
Proof.
  intros Hlogout. unfold main_content. rewrite Hlogout.
  apply before_logout_keeps, keeps_ret.
Qed.

Lemma main_content_keeps config :
  (forall key w, I w -> I (del_w key w)) ->
  keeps I I (main_content E U config).
Proof.
  intros Hdel. unfold main_content. apply before_logout_keeps.
  destruct (logout_clicked U); [|apply keeps_ret].
  unfold on_logout. apply keeps_bind.
  { intros w Hw. exact Hw. }
  intros present. apply keeps_bind; [|intros ?; now apply keeps_raise].
  destruct present; [|apply keeps_ret].
  apply triple_session_delitem; auto.
Qed.

End Shown.

Lemma extract_raise_invalid url e :
  extract_tweet_id_from_url url = Raise e -> e = InvalidURL url.
Proof.
  destruct (match_ pattern url) as [m|] eqn:Em.
  - apply match_sound in Em as (u & trailing & Hwf & ->).
    now rewrite extract_render.
  - unfold extract_tweet_id_from_url. rewrite Em. now intros [= <-].
Qed.


(** X11. A click on the post button reaches the posting API at most once.
    [on_post] only adds to the log; among what it adds there is no action on
    the API, or exactly one call to [create_tweet], with the typed text,
    which is not empty.  That call quotes nothing when the quote field is
    empty, and otherwise quotes an identifier that passes [str.isdigit]. *)
Theorem on_post_calls_once (E : env) (U : ui) (client : credentials)
    (w : world) :
  exists l,
    log (snd (on_post E U client w)) = log w ++ l
    /\ (calls l = []
        \/ exists q,
             calls l = [CreateTweet (text_typed U) q]
             /\ text_typed U <> []
             /\ match q with
                | Some id => isdigit id = true /\ quote_url_typed U <> []
                | None => quote_url_typed U = []
                end).
Proof.
  unfold on_post.
  destruct (text_typed U) as [|c text] eqn:Et.
  { exists [Entry (ErrorMessage (py "The text cannot be empty!"))
              (session_state w)]. split; [reflexivity | now left]. }
  unfold try_, bind, post_message, post_quote, create_tweet, bind, emit,
    lift, ret, raise.
  destruct (quote_url_typed U) as [|c' quote] eqn:Eq;
    [|destruct (startswith (c' :: quote) (py "http"));
      [destruct (extract_tweet_id_from_url (c' :: quote)) as [id|e0] eqn:Ex;
        [|apply extract_raise_invalid in Ex as ->]|]];
    cbv beta iota;
    try match goal with
    | |- context [isdigit ?id] => destruct (isdigit id) eqn:Hid; cbn [negb]
    end;
    try match goal with
    | |- context [api E client ?t ?q] =>
        destruct (api E client t q) as [resp|e] eqn:Ea; [|destruct e]
    end;
    cbn [fst snd log emit_w InvalidURL]; rewrite <- ?app_assoc;
    (eexists; split; [reflexivity|]);
    cbn [calls List.map List.filter what api_event app];
    first
      [ left; reflexivity
      | right; eexists; split; [reflexivity|]; split; [discriminate|];
        first [ reflexivity | split; [assumption | discriminate] ] ].
Qed.

(** ** The session across runs *)

Lemma prelude_keeps E (I : world -> Prop) (gate : M bool)
    (content : gmap string pyval -> M unit) :
  (forall e w, I w -> I (emit_w e w)) ->
  triple I gate (fun _ => I) I ->
  (forall config, keeps I I (content config)) ->
  keeps I I
    (bind (load_config E) (fun config =>
     bind (lift (getitem config "page_title")) (fun page_title =>
     bind (emit (SetPageConfig page_title)) (fun _ =>
     bind (lift (getitem config "textarea_font_size")) (fun font_size =>
     bind (emit (MarkdownCss font_size)) (fun _ =>
     bind gate (fun ok => if ok then content config else ret tt))))))).
Proof.
  intros Hemit Hgate Hcontent.
  apply keeps_bind.
  { unfold load_config. apply keeps_bind; [now apply keeps_lift|].
    intros config. destruct (secrets_config E); apply keeps_ret. }
  intros config.
  apply keeps_bind; [now apply keeps_lift | intros ?].
  apply keeps_bind; [now apply shown_emit | intros ?].
  apply keeps_bind; [now apply keeps_lift | intros ?].
  apply keeps_bind; [now apply shown_emit | intros ?].
  eapply triple_bind; [exact Hgate | intros ok].
  destruct ok; [apply Hcontent | apply keeps_ret].
Qed.

(** X12. Once signed in, the session stays as it is until the logout: a
    run from an authenticated session state in which the logout button is
    not clicked leaves the session state unchanged, whatever else happens
    in the run (a configuration error, missing credentials, a post that
    succeeds or fails). *)
Theorem session_kept_until_logout (E : env) (U : ui)
    (s : gmap string pyval) :
  authenticated s = true ->
  logout_clicked U = false ->
  session_state (snd (run E U s)) = s.
Proof.
  intros Hauth Hlogout. unfold run.
  pose proof (prelude_keeps E (fun w => session_state w = s)
                (check_password E U) (main_content E U)) as H.
  unfold keeps, triple in H.
  specialize (H (fun e w Hw => Hw)).
  assert (Hgate : forall w, session_state w = s ->
            match check_password E U w with
            | (Ok _, w') | (Raise _, w') => session_state w' = s
            end).
  { intros w Hw. rewrite check_password_skip by now rewrite Hw. exact Hw. }
  specialize (H Hgate). clear Hgate.
  assert (Hcontent : forall config w, session_state w = s ->
            match main_content E U config w with
            | (Ok _, w') | (Raise _, w') => session_state w' = s
            end).
  { intros config.
    apply (main_content_keeps_without_logout E U
             (fun w => session_state w = s) (fun e w Hw => Hw) config Hlogout). }
  specialize (H Hcontent {| session_state := s; log := [] |} eq_refl).
  unfold main.
  destruct (bind _ _ _) as [[a|e] w'] eqn:Hrun in H |- *; exact H.
Qed.

Lemma session_kept_until_logout_witness :
  authenticated signed_in = true
  /\ logout_clicked quote_alice = false
  /\ session_state (snd (run demo_env quote_alice signed_in)) = signed_in.
Proof.
  split; [reflexivity|]. split; [reflexivity|].
  apply (session_kept_until_logout demo_env quote_alice signed_in);
    reflexivity.
Defined.

Lemma load_config_ok E c w :
  config_toml E = Ok c -> load_config E w = (Ok (merged_config E c), w).
Proof.
  intros Hc. unfold load_config, merged_config, bind, lift. rewrite Hc.
  now destruct (secrets_config E).
Qed.

Lemma delete_flag_locked s : authenticated (delete FLAG s) = false.
Proof. unfold authenticated. fold FLAG. now rewrite lookup_delete_eq. Qed.

(** X13. The logout locks the page.  From an authenticated session state,
    when the configuration and the four credentials are there for the page
    to be shown, a run with a click on the logout button ends on the rerun
    of Streamlit and leaves the session state without the flag, so that the
    next run finds the gate locked; nothing else in the session changes. *)
Theorem logout_locks (E : env) (U : ui) (s c : gmap string pyval) :
  authenticated s = true ->
  config_toml E = Ok c ->
  Forall (fun key => is_Some (merged_config E c !! key))
    ["page_title"; "textarea_font_size"; "textarea_max_chars";
     "textarea_height"] ->
  Forall (fun key => is_Some (secrets E !! key)) credential_keys ->
  post_clicked U = false ->
  logout_clicked U = true ->
  fst (run E U s) = Raise RerunException
  /\ session_state (snd (run E U s)) = delete FLAG s
  /\ authenticated (session_state (snd (run E U s))) = false.
Proof.
  intros Hauth Hc Hconfig Hcreds Hpost Hlogout.
  apply Forall_cons in Hconfig as [[title Htitle] Hconfig].
  apply Forall_cons in Hconfig as [[font Hfont] Hconfig].
  apply Forall_cons in Hconfig as [[chars Hchars] Hconfig].
  apply Forall_cons in Hconfig as [[height Hheight] _].
  unfold credential_keys in Hcreds.
  apply Forall_cons in Hcreds as [[ck Hck] Hcreds].
  apply Forall_cons in Hcreds as [[cs Hcs] Hcreds].
  apply Forall_cons in Hcreds as [[at_ Hat] Hcreds].
  apply Forall_cons in Hcreds as [[ats Hats] _].
  pose proof Hauth as Hflag. unfold authenticated in Hflag.
  destruct (s !! "password_correct") as [flag|] eqn:Es; [|discriminate].
  assert (Hrun : exists w,
             run E U s = (Raise RerunException, del_w FLAG w)
             /\ session_state w = s).
  { unfold run, main. unfold bind at 1.
    rewrite (load_config_ok E c _ Hc).
    unfold bind at 1 2 3 4, lift, getitem, emit.
    rewrite Htitle, Hfont. cbv beta iota.
    unfold bind at 1. rewrite check_password_skip by exact Hauth.
    unfold main_content, load_credentials, new_client, secrets_getitem,
      on_logout, session_contains, session_delitem.
    unfold bind, lift, getitem, emit, ret, raise.
    rewrite Hck, Hcs, Hat, Hats, Hchars, Hheight, Hpost, Hlogout.
    cbn [session_state emit_w]. rewrite Es. cbn.
    rewrite Es. eexists. split; [reflexivity | reflexivity]. }
  destruct Hrun as (w & -> & Hw). cbn [fst snd del_w session_state].
  rewrite Hw. repeat split. apply delete_flag_locked.
Qed.

Lemma logout_locks_witness :
  authenticated signed_in = true
  /\ fst (run demo_env click_logout signed_in) = Raise RerunException
  /\ session_state (snd (run demo_env click_logout signed_in))
     = delete FLAG signed_in
  /\ authenticated (session_state (snd (run demo_env click_logout signed_in)))
     = false.
Proof.
  split; [reflexivity|].
  apply (logout_locks demo_env click_logout signed_in demo_config);
    try reflexivity;
    repeat (constructor; [eexists; vm_compute; reflexivity|]); constructor.
Defined.

(** X14. The flag is only ever a boolean: in every session state
    reachable from a new session by runs of the script, [password_correct]
    is absent or holds [True] or [False], so that the session is
    authenticated, as [check_password] reads it, exactly when the flag is
    [True]. *)
Theorem reachable_flag_boolean (s : gmap string pyval) :
  reachable s ->
  (s !! "password_correct" = None
   \/ exists b, s !! "password_correct" = Some (VBool b))
  /\ (authenticated s = true <-> s !! "password_correct" = Some (VBool true)).
Proof.
  intros Hs. pose proof (reachable_flag_ok s Hs) as Hflag.
  split; [exact Hflag|]. split.
  - now apply flag_ok_authenticated.
  - unfold authenticated. now intros ->.
Qed.

Lemma reachable_flag_boolean_witness :
  reachable signed_in
  /\ (authenticated signed_in = true
      <-> signed_in !! "password_correct" = Some (VBool true)).
Proof.
  split; [exact signed_in_reachable|].
  apply (reachable_flag_boolean signed_in signed_in_reachable).
Defined.

(** ** Errors before the gate *)

(** X15. Configuration errors are fatal before the gate: when config.toml
    cannot be read, or the loaded configuration has no [page_title], a run
    raises at once, with nothing shown, no login form either, and the
    session state untouched; without [textarea_font_size] it raises after
    the page configuration alone. *)
Theorem config_errors_precede_gate (E : env) (U : ui)
    (s : gmap string pyval) :
  match config_toml E with
  | Raise e => run E U s = (Raise e, {| session_state := s; log := [] |})
  | Ok c =>
      match merged_config E c !! "page_title" with
      | None =>
          run E U s
          = (Raise (KeyError "page_title"),
             {| session_state := s; log := [] |})
      | Some title =>
          match merged_config E c !! "textarea_font_size" with
          | None =>
              run E U s
              = (Raise (KeyError "textarea_font_size"),
                 emit_w (SetPageConfig title)
                   {| session_state := s; log := [] |})
          | Some _ => True
          end
      end
  end.
Proof.
  destruct (config_toml E) as [c|e] eqn:Hc.
  - destruct (merged_config E c !! "page_title") as [title|] eqn:Ht;
      [destruct (merged_config E c !! "textarea_font_size") eqn:Hf;
       [exact Logic.I|]|];
      unfold run, main; unfold bind at 1; rewrite (load_config_ok E c _ Hc);
      unfold bind, lift, getitem, emit; rewrite Ht, ?Hf; reflexivity.
  - unfold run, main, load_config, bind, lift. now rewrite Hc.
Qed.

(** ** The gate on ASCII and beyond *)

(** X16. With an ASCII secret in the store, a locked gate decides an ASCII
    submission by equality: it returns [True] when the typed password is the
    secret and stops the page otherwise; either way the flag records the
    verdict and the typed password is no longer in the session state. *)
Theorem gate_decides_ascii (E : env) (U : ui) (w : world) (secret : pystr) :
  authenticated (session_state w) = false ->
  submit_clicked U = true ->
  secrets E !! "APP_PASSWORD" = Some (VStr secret) ->
  forallb Unicode.is_ascii (password_typed U) = true ->
  forallb Unicode.is_ascii secret = true ->
  (password_typed U = secret ->
   fst (check_password E U w) = Ok true
   /\ session_state (snd (check_password E U w)) !! FLAG
      = Some (VBool true))
  /\ (password_typed U <> secret ->
      fst (check_password E U w) = Raise StopException
      /\ session_state (snd (check_password E U w)) !! FLAG
         = Some (VBool false))
  /\ session_state (snd (check_password E U w)) !! "password_input" = None.
Proof.
  intros Hlocked Hsubmit Hsecret Htyped Has.
  rewrite (check_password_verdict E U w (VStr secret) Hlocked Hsubmit Hsecret
             _ (compare_digest_ascii _ _ Htyped Has)).
  cbv zeta.
  case_bool_decide as Heq;
    cbn [fst snd emit_w del_w set_w session_state];
    (split; [intros Heq'|split; [intros Heq'|apply lookup_delete_eq]]);
    try contradiction;
    (split; [reflexivity|]);
    now rewrite lookup_delete_ne, lookup_insert_eq.
Qed.

Lemma gate_decides_ascii_witness :
  authenticated (session_state world0) = false
  /\ password_typed (submit_password (py "nope")) <> py "secret"
  /\ fst (check_password demo_env (submit_password (py "nope")) world0)
     = Raise StopException
  /\ session_state
       (snd (check_password demo_env (submit_password (py "nope")) world0))
     !! FLAG = Some (VBool false)
  /\ session_state
       (snd (check_password demo_env (submit_password (py "nope")) world0))
     !! "password_input" = None.
Proof.
  assert (Hne : password_typed (submit_password (py "nope")) <> py "secret")
    by (vm_compute; discriminate).
  split; [reflexivity|]. split; [exact Hne|].
  pose proof (gate_decides_ascii demo_env (submit_password (py "nope")) world0
                (py "secret") eq_refl eq_refl eq_refl eq_refl eq_refl)
    as (_ & Hwrong & Hinput).
  destruct (Hwrong Hne) as [Hstop Hflag].
  split; [exact Hstop|]. split; [exact Hflag | exact Hinput].
Defined.

(** X17. A submission with a character outside ASCII, or against a secret
    with one, reaches no verdict: the comparison raises a [TypeError], the
    flag is left as it was and the typed password stays in the session
    state under [password_input]. *)
Theorem gate_raises_beyond_ascii (E : env) (U : ui) (w : world)
    (secret : pystr) :
  authenticated (session_state w) = false ->
  submit_clicked U = true ->
  secrets E !! "APP_PASSWORD" = Some (VStr secret) ->
  forallb Unicode.is_ascii (password_typed U)
  && forallb Unicode.is_ascii secret = false ->
  (exists msg, fst (check_password E U w) = Raise (TypeError msg))
  /\ session_state (snd (check_password E U w)) !! FLAG
     = session_state w !! FLAG
  /\ session_state (snd (check_password E U w)) !! "password_input"
     = Some (VStr (password_typed U)).
Proof.
  intros Hlocked Hsubmit Hsecret Hna.
  destruct (compare_digest_non_ascii _ _ Hna) as [msg Hc].
  rewrite (check_password_raises E U w (VStr secret) Hlocked Hsubmit Hsecret
             _ Hc).
  cbn [fst snd]. split; [eauto|].
  split; [apply login_form_flag | apply login_form_input].
Qed.

Lemma gate_raises_beyond_ascii_witness :
  authenticated (session_state world0) = false
  /\ (exists msg,
        fst (check_password demo_env (submit_password [233]) world0)
        = Raise (TypeError msg))
  /\ session_state
       (snd (check_password demo_env (submit_password [233]) world0))
     !! FLAG = session_state world0 !! FLAG
  /\ session_state
       (snd (check_password demo_env (submit_password [233]) world0))
     !! "password_input" = Some (VStr [233]).
Proof.
  split; [reflexivity|].
  apply (gate_raises_beyond_ascii demo_env (submit_password [233]) world0
           (py "secret")); reflexivity.
Defined.
